(** * The loss functions of [mlx.nn.losses]

    A shallow embedding of [python/mlx/nn/losses.py]: the seven loss
    functions, the shared reduction helper [_reduce] and the class decorator
    [_make_loss_module] behind [BCELoss].

    Python exceptions are values of an error monad.  The arrays of [mlx.core]
    are a shape together with an element function on multi-indices; their
    floating-point elements are idealised as exact rationals, and the two
    transcendental kernels ([log] and [exp]) are left abstract behind the
    [ScalarMath] interface. *)

From Stdlib Require Import List String DecimalString ZArith QArith Qabs Lia Lqa Bool Setoid.
Import ListNotations.

Local Open Scope string_scope.
Local Open Scope list_scope.
Local Open Scope nat_scope.

(** ** Exceptions and results *)

Inductive exn : Type :=
| AssertionError (msg : string)
| ValueError (msg : string)
| IndexError (msg : string).

Inductive result (A : Type) : Type :=
| Ok (a : A)
| Raise (e : exn).

Arguments Ok {A} a.
Arguments Raise {A} e.

Definition bind {A B : Type} (m : result A) (k : A -> result B) : result B :=
  match m with
  | Ok a => k a
  | Raise e => Raise e
  end.

Notation "x <- m ;; k" := (bind m (fun x => k))
  (at level 61, m at next level, right associativity).

Definition is_ok {A : Type} (m : result A) : Prop :=
  match m with Ok _ => True | Raise _ => False end.

Definition raises {A : Type} (m : result A) : Prop :=
  match m with Ok _ => False | Raise _ => True end.

(** Python's [assert cond, msg]. *)
Definition assert_ (cond : bool) (msg : string) : result unit :=
  if cond then Ok tt else Raise (AssertionError msg).

(** ** Shapes and multi-indices *)

Definition shape_t := list nat.

Fixpoint shape_eqb (s1 s2 : shape_t) : bool :=
  match s1, s2 with
  | [], [] => true
  | a :: s1', b :: s2' => (a =? b) && shape_eqb s1' s2'
  | _, _ => false
  end.

Definition numel (s : shape_t) : nat := fold_right Nat.mul 1 s.

(** All multi-indices of a shape, in row-major order. *)
Fixpoint indices (s : shape_t) : list (list nat) :=
  match s with
  | [] => [[]]
  | d :: s' => flat_map (fun i => map (cons i) (indices s')) (seq 0 d)
  end.

Definition remove_nth (k : nat) (l : list nat) : list nat :=
  firstn k l ++ skipn (S k) l.

Definition insert_nth (k : nat) (v : nat) (l : list nat) : list nat :=
  firstn k l ++ v :: skipn k l.

Definition set_nth (k : nat) (v : nat) (l : list nat) : list nat :=
  firstn k l ++ v :: skipn (S k) l.

(** Python's repr of a shape tuple, for the f-string messages. *)
Definition repr_nat (n : nat) : string :=
  NilEmpty.string_of_uint (Nat.to_uint n).

Fixpoint repr_items (s : shape_t) : string :=
  match s with
  | [] => ""
  | [d] => repr_nat d
  | d :: s' => (repr_nat d ++ ", " ++ repr_items s')%string
  end.

Definition repr_shape (s : shape_t) : string :=
  match s with
  | [d] => ("(" ++ repr_nat d ++ ",)")%string
  | _ => ("(" ++ repr_items s ++ ")")%string
  end.

(** ** The host array library

    [mlx.core] is imported by the module but is not part of it.  The
    operations below are the ones [losses.py] calls. *)

Class ScalarMath : Type := {
  slog : Q -> Q;
  sexp : Q -> Q
}.

Module mx.

(** Modelled from the spec: the array type of [mlx.core] (not among the
    sources), "an n-dimensional array of floating-point (or integer index,
    for class targets) values": a shape and the element at each
    multi-index. *)
Record array (A : Type) : Type := mk_array {
  shape : shape_t;
  get : list nat -> A
}.

Arguments mk_array {A} shape get.
Arguments shape {A} a.
Arguments get {A} a idx.

Definition ndim {A} (a : array A) : nat := List.length (shape a).

Definition size {A} (a : array A) : nat := numel (shape a).

(** The elements in row-major order. *)
Definition to_list {A} (a : array A) : list A := List.map (get a) (indices (shape a)).

Definition Qsum (l : list Q) : Q := fold_right Qplus 0%Q l.

(** Modelled from the spec: broadcasting of [mlx.core] (not among the
    sources).  Shapes are aligned at their last axis; two extents are
    compatible when they are equal or one of them is 1.  The helpers work on
    reversed shapes. *)
Fixpoint broadcast_rev (s1 s2 : shape_t) : option shape_t :=
  match s1, s2 with
  | [], _ => Some s2
  | _, [] => Some s1
  | a :: s1', b :: s2' =>
      match broadcast_rev s1' s2' with
      | None => None
      | Some s =>
          if a =? b then Some (a :: s)
          else if a =? 1 then Some (b :: s)
          else if b =? 1 then Some (a :: s)
          else None
      end
  end.

Definition broadcast_shapes (s1 s2 : shape_t) : option shape_t :=
  option_map (@rev nat) (broadcast_rev (rev s1) (rev s2)).

(** The index an operand of shape [s] is read at, for an index of the
    broadcast result: leading axes are dropped and axes of extent 1 are read
    at 0. *)
Fixpoint project_rev (s : shape_t) (idx : list nat) : list nat :=
  match s with
  | [] => []
  | d :: s' =>
      match idx with
      | [] => 0 :: project_rev s' []
      | i :: idx' => (if d =? 1 then 0 else i) :: project_rev s' idx'
      end
  end.

Definition broadcast_index (s : shape_t) (idx : list nat) : list nat :=
  rev (project_rev (rev s) (rev idx)).

Definition broadcast_error : exn := ValueError "Shapes cannot be broadcast.".

(** Modelled from the spec: the elementwise binary operations of [mlx.core]
    (not among the sources), with broadcasting of the two operands. *)
Definition zip_with {A B C} (f : A -> B -> C) (a : array A) (b : array B)
  : result (array C) :=
  match broadcast_shapes (shape a) (shape b) with
  | Some s =>
      Ok (mk_array s (fun i =>
            f (get a (broadcast_index (shape a) i))
              (get b (broadcast_index (shape b) i))))
  | None => Raise broadcast_error
  end.

(** Modelled from the spec: the elementwise unary operations of [mlx.core]
    (not among the sources); also an operation with a Python scalar, which
    broadcasts to the shape of the array. *)
Definition map {A B} (f : A -> B) (a : array A) : array B :=
  mk_array (shape a) (fun i => f (get a i)).

Definition add := zip_with Qplus.
Definition subtract := zip_with Qminus.
Definition multiply := zip_with Qmult.

Definition negative : array Q -> array Q := map Qopp.
Definition abs : array Q -> array Q := map Qabs.
Definition square : array Q -> array Q := map (fun v => v * v)%Q.
Definition log `{ScalarMath} : array Q -> array Q := map slog.
Definition exp `{ScalarMath} : array Q -> array Q := map sexp.

(** [c * a], [a * c], [a / c], [c - a], [a - c] and [a < c] for a Python
    float [c]. *)
Definition rmul_scalar (c : Q) : array Q -> array Q := map (fun v => c * v)%Q.
Definition mul_scalar (a : array Q) (c : Q) : array Q := map (fun v => v * c)%Q a.
Definition div_scalar (a : array Q) (c : Q) : array Q := map (fun v => v / c)%Q a.
Definition rsub_scalar (c : Q) : array Q -> array Q := map (fun v => c - v)%Q.
Definition sub_scalar (a : array Q) (c : Q) : array Q := map (fun v => v - c)%Q a.

Definition Qltb (x y : Q) : bool := negb (Qle_bool y x).

Definition less_scalar (a : array Q) (c : Q) : array bool :=
  map (fun v => Qltb v c) a.

(** Modelled from the spec: [mx.where(cond, x, y)] of [mlx.core] (not among
    the sources), broadcasting its three arguments. *)
Definition where_ {A} (c : array bool) (x y : array A) : result (array A) :=
  cx <- zip_with pair c x ;;
  zip_with (fun (p : bool * A) v => if fst p then snd p else v) cx y.

(** Modelled from the spec: the axis arguments of [mlx.core] (not among the
    sources); an axis counts from the end when it is negative and is
    rejected when it is out of range. *)
Definition normalize_axis (axis : Z) (n : nat) : option nat :=
  if ((- Z.of_nat n <=? axis) && (axis <? Z.of_nat n))%Z
  then Some (Z.to_nat (if (axis <? 0)%Z then axis + Z.of_nat n else axis))
  else None.

Definition axis_error : exn := ValueError "Invalid axis for array.".

(** Modelled from the spec: "reduction along an axis" in [mlx.core] (not
    among the sources), with [f] applied to the elements along the axis,
    which is removed from the shape. *)
Definition reduce_axis {A B} (f : list A -> B) (a : array A) (axis : Z)
  : result (array B) :=
  match normalize_axis axis (ndim a) with
  | None => Raise axis_error
  | Some k =>
      Ok (mk_array (remove_nth k (shape a)) (fun i =>
            f (List.map (fun j => get a (insert_nth k j i))
                        (seq 0 (nth k (shape a) 0)))))
  end.

Definition Qmean (l : list Q) : Q := (Qsum l / inject_Z (Z.of_nat (List.length l)))%Q.

Definition sum_axis : array Q -> Z -> result (array Q) := reduce_axis Qsum.
Definition mean_axis : array Q -> Z -> result (array Q) := reduce_axis Qmean.

(** Modelled from the spec: [mx.logsumexp] of [mlx.core] (not among the
    sources), "numerically stable computation of log(sum(exp(x)))"; over
    exact scalars it is that expression. *)
Definition logsumexp `{ScalarMath} : array Q -> Z -> result (array Q) :=
  reduce_axis (fun l => slog (Qsum (List.map sexp l))).

(** Modelled from the spec: [mx.sum(a)] and [mx.mean(a)] of [mlx.core] (not
    among the sources) without an axis, which total or average "all elements
    to a scalar": a 0-dimensional array. *)
Definition reduce_all {A} (f : list A -> Q) (a : array A) : array Q :=
  mk_array [] (fun _ => f (to_list a)).

Definition sum_all : array Q -> array Q := reduce_all Qsum.
Definition mean_all : array Q -> array Q := reduce_all Qmean.

(** Modelled from the spec: the indexing [a[..., None]] of [mlx.core] (not
    among the sources): a new last axis of extent 1. *)
Definition expand_last {A} (a : array A) : array A :=
  mk_array (shape a ++ [1]) (fun i => get a (removelast i)).

(** Modelled from the spec: the index tensor of the gather, "class indices
    along all dims except axis", given the axis it lacks: an axis of extent
    1 at position [axis] of the expanded shape ([mx.expand_dims] of
    [mlx.core], not among the sources). *)
Definition expand_dims {A} (a : array A) (axis : Z) : result (array A) :=
  match normalize_axis axis (S (ndim a)) with
  | None => Raise axis_error
  | Some k =>
      Ok (mk_array (insert_nth k 1 (shape a)) (fun i => get a (remove_nth k i)))
  end.

(** Modelled from the spec: [a.squeeze(axis)] of [mlx.core] (not among the
    sources): removes an axis, which must have extent 1. *)
Definition squeeze {A} (a : array A) (axis : Z) : result (array A) :=
  match normalize_axis axis (ndim a) with
  | None => Raise axis_error
  | Some k =>
      if nth k (shape a) 0 =? 1
      then Ok (mk_array (remove_nth k (shape a)) (fun i => get a (insert_nth k 0 i)))
      else Raise (ValueError "Cannot squeeze axis with size not equal to 1.")
  end.

(** Modelled from the spec: index handling of the gather of [mlx.core] (not
    among the sources); an index counts from the end of the axis when it
    is negative. *)
Definition wrap_index (i : Z) (n : nat) : nat :=
  Z.to_nat (if (i <? 0)%Z then i + Z.of_nat n else i).

(** Modelled from the spec: [mx.take_along_axis] of [mlx.core] (not among
    the sources), the "indexing operation selecting one element per position
    along a given axis using an index tensor".  The index array has the rank
    of the array and is broadcast against it on the other axes; indices are
    not checked against the extent of the axis. *)
Definition take_along_axis {A} (a : array A) (ind : array Z) (axis : Z)
  : result (array A) :=
  match normalize_axis axis (ndim a) with
  | None => Raise axis_error
  | Some k =>
      if negb (ndim ind =? ndim a)
      then Raise (ValueError "Indices must have the dimension of the array.")
      else
        match broadcast_shapes (shape ind) (set_nth k 1 (shape a)) with
        | None => Raise broadcast_error
        | Some s =>
            Ok (mk_array s (fun i =>
                  get a (set_nth k
                           (wrap_index (get ind (broadcast_index (shape ind) i))
                                       (nth k (shape a) 0))
                           (broadcast_index (shape a) i))))
        end
  end.

(** Modelled from the spec: [a.shape[0]] for the shape tuple of an
    [mlx.core] array (not among the sources); indexing the empty tuple
    raises. *)
Definition shape0 {A} (a : array A) : result nat :=
  match shape a with
  | [] => Raise (IndexError "tuple index out of range")
  | d :: _ => Ok d
  end.

(** An array from its shape and its elements in row-major order. *)
Fixpoint ravel (s : shape_t) (idx : list nat) (acc : nat) : nat :=
  match s, idx with
  | d :: s', i :: idx' => ravel s' idx' (acc * d + i)
  | _, _ => acc
  end.

Definition of_list {A} (dflt : A) (s : shape_t) (l : list A) : array A :=
  mk_array s (fun i => nth (ravel s i 0) l dflt).

End mx.

Import mx (array, shape, get).

(** ** The reduction helper and the losses *)

Definition reduction_error : exn :=
  ValueError "Invalid reduction. Must be 'none', 'mean', or 'sum'.".

Definition _reduce (loss : array Q) (reduction : string) : result (array Q) :=
  if (reduction =? "mean")%string then Ok (mx.mean_all loss)
  else if (reduction =? "sum")%string then Ok (mx.sum_all loss)
  else if (reduction =? "none")%string then Ok loss
  else Raise reduction_error.

Definition valid_reduction (r : string) : Prop :=
  r = "none" \/ r = "mean" \/ r = "sum".

Definition shape_mismatch_msg (predictions targets : array Q) : string :=
  ("Shape of predictions " ++ repr_shape (shape predictions)
   ++ " and targets " ++ repr_shape (shape targets) ++ " must match")%string.

Definition l1_loss (predictions targets : array Q) (reduction : string)
  : result (array Q) :=
  _ <- assert_ (shape_eqb (shape predictions) (shape targets))
               (shape_mismatch_msg predictions targets) ;;
  d <- mx.subtract predictions targets ;;
  let loss := mx.abs d in
  _reduce loss reduction.

Definition mse_loss (predictions targets : array Q) (reduction : string)
  : result (array Q) :=
  _ <- assert_ (shape_eqb (shape predictions) (shape targets))
               (shape_mismatch_msg predictions targets) ;;
  d <- mx.subtract predictions targets ;;
  let loss := mx.square d in
  _reduce loss reduction.

(** Lines 272-276 of the source: the loss before the reduction. *)
Definition smooth_l1_elementwise (predictions targets : array Q) (beta : Q)
  : result (array Q) :=
  diff <- mx.subtract predictions targets ;;
  mx.where_ (mx.less_scalar diff beta)
            (mx.div_scalar (mx.rmul_scalar (1 # 2) (mx.square diff)) beta)
            (mx.sub_scalar (mx.abs diff) ((1 # 2) * beta)%Q).

Definition smooth_l1_loss (predictions targets : array Q) (beta : Q)
    (reduction : string) : result (array Q) :=
  _ <- assert_ (shape_eqb (shape predictions) (shape targets))
               (shape_mismatch_msg predictions targets) ;;
  loss <- smooth_l1_elementwise predictions targets beta ;;
  _reduce loss reduction.

Definition nll_loss (inputs : array Q) (targets : array Z) (axis : Z)
    (reduction : string) : result (array Q) :=
  g <- mx.take_along_axis inputs (mx.expand_last targets) axis ;;
  s <- mx.squeeze g (-1) ;;
  let loss := mx.negative s in
  _reduce loss reduction.

Section Transcendental.

Context `{ScalarMath}.

(** Lines 47-60 of the source: the loss before weights and reduction. *)
Definition cross_entropy_elementwise (logits : array Q) (targets : array Z)
    (axis : Z) (label_smoothing : Q) : result (array Q) :=
  g <- mx.take_along_axis logits (mx.expand_last targets) axis ;;
  score <- mx.squeeze g (-1) ;;
  logsumexp_logits <- mx.logsumexp logits axis ;;
  if mx.Qltb 0 label_smoothing then
    let adjusted_score := mx.rmul_scalar (1 - label_smoothing)%Q score in
    mean_logits <- mx.mean_axis logits axis ;;
    let smoothed_loss := mx.mul_scalar (mx.negative mean_logits) label_smoothing in
    t <- mx.subtract logsumexp_logits adjusted_score ;;
    mx.add t smoothed_loss
  else
    mx.subtract logsumexp_logits score.

(** Lines 63-66 of the source. *)
Definition apply_weights (loss : array Q) (targets : array Z)
    (weights : option (array Q)) : result (array Q) :=
  match weights with
  | None => Ok loss
  | Some w =>
      if negb (shape_eqb (shape w) (shape targets))
      then Raise (ValueError "Shape of weights must be the same as shape of targets.")
      else mx.multiply loss w
  end.

Definition cross_entropy (logits : array Q) (targets : array Z)
    (weights : option (array Q)) (axis : Z) (label_smoothing : Q)
    (reduction : string) : result (array Q) :=
  _ <- assert_ (Qle_bool 0 label_smoothing && mx.Qltb label_smoothing 1)
               "label smoothing must be between 0 and 1 (exclusive)" ;;
  l0 <- mx.shape0 logits ;;
  t0 <- mx.shape0 targets ;;
  _ <- assert_ (l0 =? t0)
               "The shape of logits and targets must match along axis 0." ;;
  loss <- cross_entropy_elementwise logits targets axis label_smoothing ;;
  loss <- apply_weights loss targets weights ;;
  _reduce loss reduction.

(** Line 95 of the source: the loss before the reduction. *)
Definition binary_cross_entropy_elementwise (inputs targets : array Q)
  : result (array Q) :=
  a <- mx.multiply (mx.negative targets) (mx.log inputs) ;;
  b <- mx.multiply (mx.rsub_scalar 1 targets) (mx.log (mx.rsub_scalar 1 inputs)) ;;
  mx.subtract a b.

Definition binary_cross_entropy (inputs targets : array Q) (reduction : string)
  : result (array Q) :=
  loss <- binary_cross_entropy_elementwise inputs targets ;;
  _reduce loss reduction.

Definition kl_div_loss (inputs targets : array Q) (axis : Z) (reduction : string)
  : result (array Q) :=
  d <- mx.subtract targets inputs ;;
  p <- mx.multiply (mx.exp targets) d ;;
  loss <- mx.sum_axis p axis ;;
  _reduce loss reduction.

(** *** The callable loss object

    [BCELoss.__init__] stores the reduction mode; the decorator
    [_make_loss_module] gives the class the [__call__] that forwards to the
    wrapped function with the stored mode.  The parameter dictionary of the
    base class [Module] plays no part in the call. *)
Record loss_module : Type := { reduction : string }.

Definition _make_loss_module
    (f : array Q -> array Q -> string -> result (array Q))
  : loss_module -> array Q -> array Q -> result (array Q) :=
  fun self inputs targets => f inputs targets (reduction self).

Definition BCELoss (reduction : string) : loss_module :=
  {| reduction := reduction |}.

Definition BCELoss_call : loss_module -> array Q -> array Q -> result (array Q) :=
  _make_loss_module binary_cross_entropy.

End Transcendental.

(** ** Reference formulas

    The formula of the docstring of [smooth_l1_loss], on one difference:
    quadratic where [|diff| < beta], linear elsewhere. *)
Definition smooth_l1_documented (diff beta : Q) : Q :=
  if mx.Qltb (Qabs diff) beta
  then ((1 # 2) * (diff * diff) / beta)%Q
  else (Qabs diff - (1 # 2) * beta)%Q.

(** The value [mx.where] selects in [smooth_l1_loss] at an element whose
    difference is [diff]: the test is on the signed difference. *)
Definition smooth_l1_selected (diff beta : Q) : Q :=
  if mx.Qltb diff beta
  then ((1 # 2) * (diff * diff) / beta)%Q
  else (Qabs diff - (1 # 2) * beta)%Q.

(** The cross entropy loss in the words of the specification: "Gather the
    logit at the target class via index-gather along axis, then squeeze that
    axis out.  Compute logsumexp(logits, axis).  Without smoothing: loss =
    logsumexp - gathered_score.  With smoothing (label_smoothing = eps > 0):
    loss = logsumexp - (1 - eps) * gathered_score - eps * mean(logits,
    axis)." *)
Definition cross_entropy_spec `{ScalarMath} (logits : array Q)
    (targets : array Z) (axis : Z) (eps : Q) : result (array Q) :=
  index <- mx.expand_dims targets axis ;;
  g <- mx.take_along_axis logits index axis ;;
  gathered_score <- mx.squeeze g axis ;;
  logsumexp <- mx.logsumexp logits axis ;;
  if Qeq_bool eps 0 then
    mx.subtract logsumexp gathered_score
  else
    mean <- mx.mean_axis logits axis ;;
    t <- mx.subtract logsumexp (mx.rmul_scalar (1 - eps)%Q gathered_score) ;;
    mx.subtract t (mx.rmul_scalar eps mean).

(** Arrays are compared by shape and, elementwise, by equality of
    rationals; results agree when both raise the same exception or both
    return such arrays. *)
Definition array_equiv (a b : array Q) : Prop :=
  shape a = shape b /\ forall i, (get a i == get b i)%Q.

Definition result_equiv (r1 r2 : result (array Q)) : Prop :=
  match r1, r2 with
  | Ok a, Ok b => array_equiv a b
  | Raise e1, Raise e2 => e1 = e2
  | _, _ => False
  end.

(** The four conditions under which the specification says [cross_entropy]
    fails. *)
Definition cross_entropy_rejects (logits : array Q) (targets : array Z)
    (weights : option (array Q)) (label_smoothing : Q) (reduction : string)
  : Prop :=
  ~ (0 <= label_smoothing < 1)%Q
  \/ hd_error (shape logits) <> hd_error (shape targets)
  \/ (exists w, weights = Some w /\ shape w <> shape targets)
  \/ ~ valid_reduction reduction.

(** ** Concrete data for the examples *)

Module Examples.

(** Affine stand-ins for the two transcendental kernels, to run the losses
    that need them on concrete arrays. *)
Definition affine_math : ScalarMath :=
  {| slog := fun x => (x - 1)%Q; sexp := fun x => (1 + x)%Q |}.

Definition vec (l : list Q) : array Q := mx.of_list 0%Q [List.length l] l.
Definition ivec (l : list Z) : array Z := mx.of_list 0%Z [List.length l] l.
Definition mat (r c : nat) (l : list Q) : array Q := mx.of_list 0%Q [r; c] l.

End Examples.

Module Data.

Import Examples.

(** Two rows of three class scores, and a class index per row. *)
Definition logits : array Q := mat 2 3 [1; 2; 3; 4; 5; 6]%Q.
Definition labels : array Z := ivec [0; 2]%Z.

(** Class scores with the classes along axis 0: two classes, two columns. *)
Definition class_first : array Q := mat 2 2 [1; 2; 3; 4]%Q.
Definition column_labels : array Z := ivec [0; 1]%Z.

(** Two classes along axis 0, a single column. *)
Definition class_first_single : array Q := mat 2 1 [1; 2]%Q.


End Data.

(** ** Valid indices

    A multi-index is valid for a shape when it has the rank of the shape and
    each component is below the extent of its axis. *)
Definition in_range (s : shape_t) (i : list nat) : Prop := Forall2 lt i s.

(** Arrays that agree on their valid indices, and results that raise the
    same exception or return such arrays. *)
Definition array_sim (a b : array Q) : Prop :=
  shape a = shape b /\ forall i, in_range (shape a) i -> (get a i == get b i)%Q.

Definition result_sim (r1 r2 : result (array Q)) : Prop :=
  match r1, r2 with
  | Ok a, Ok b => array_sim a b
  | Raise e1, Raise e2 => e1 = e2
  | _, _ => False
  end.

(** * Properties *)

(** ** Helper lemmas *)

Lemma shape_eqb_eq (s1 s2 : shape_t) : shape_eqb s1 s2 = true <-> s1 = s2.
Proof.
  revert s2; induction s1 as [|a s1 IH]; intros [|b s2]; simpl;
    try (split; [discriminate | congruence]); [tauto|].
  rewrite andb_true_iff, Nat.eqb_eq, IH.
  split; [intros [-> ->]; reflexivity | intros E; injection E; auto].
Qed.

Lemma shape_eqb_neq (s1 s2 : shape_t) : s1 <> s2 -> shape_eqb s1 s2 = false.
Proof.
  intros N; destruct (shape_eqb s1 s2) eqn:E; [|reflexivity].
  apply shape_eqb_eq in E; contradiction.
Qed.

Lemma length_indices (s : shape_t) : List.length (indices s) = numel s.
Proof.
  induction s as [|d s IH]; simpl; [reflexivity|].
  rewrite length_flat_map.
  transitivity (list_sum (List.map (fun _ : nat => numel s) (seq 0 d))).
  - f_equal. apply map_ext. intros i. rewrite length_map. exact IH.
  - generalize 0. induction d as [|d IHd]; intros st; simpl; [reflexivity|].
    rewrite IHd. reflexivity.
Qed.

Lemma length_to_list {A} (a : array A) : List.length (mx.to_list a) = mx.size a.
Proof. unfold mx.to_list, mx.size. rewrite length_map. apply length_indices. Qed.

Lemma reduce_invalid (loss : array Q) (r : string) :
  ~ valid_reduction r -> _reduce loss r = Raise reduction_error.
Proof.
  unfold valid_reduction, _reduce; intros N.
  destruct (String.eqb_spec r "mean") as [->|_]; [tauto|].
  destruct (String.eqb_spec r "sum") as [->|_]; [tauto|].
  destruct (String.eqb_spec r "none") as [->|_]; [tauto|].
  reflexivity.
Qed.

Lemma reduce_valid (loss : array Q) (r : string) :
  valid_reduction r -> is_ok (_reduce loss r).
Proof. intros [-> | [-> | ->]]; exact I. Qed.

Lemma reduce_ok_iff (loss : array Q) (r : string) :
  is_ok (_reduce loss r) <-> valid_reduction r.
Proof.
  split; [|apply reduce_valid].
  intros H. destruct (String.eqb_spec r "none") as [->|N1]; [left; reflexivity|].
  destruct (String.eqb_spec r "mean") as [->|N2]; [right; left; reflexivity|].
  destruct (String.eqb_spec r "sum") as [->|N3]; [right; right; reflexivity|].
  rewrite reduce_invalid in H; [destruct H|].
  unfold valid_reduction; tauto.
Qed.

(** ** The reduction helper *)

(** C2: [_reduce] returns the loss unchanged for "none", the 0-dimensional
    mean of all its elements (the sum of the elements of the "none" output
    divided by their number) for "mean", the 0-dimensional sum of all its
    elements for "sum", and raises the invalid-reduction [ValueError] for
    every other string; it returns exactly for these three strings. *)
Theorem reduce_modes (loss : array Q) :
  _reduce loss "none" = Ok loss
  /\ (_reduce loss "mean" = Ok (mx.mean_all loss)
      /\ shape (mx.mean_all loss) = []
      /\ forall i, get (mx.mean_all loss) i
                   = (mx.Qsum (mx.to_list loss)
                      / inject_Z (Z.of_nat (mx.size loss)))%Q)
  /\ (_reduce loss "sum" = Ok (mx.sum_all loss)
      /\ shape (mx.sum_all loss) = []
      /\ forall i, get (mx.sum_all loss) i = mx.Qsum (mx.to_list loss))
  /\ (forall r, r <> "none" -> r <> "mean" -> r <> "sum" ->
                _reduce loss r = Raise reduction_error)
  /\ (forall r, is_ok (_reduce loss r) <-> r = "none" \/ r = "mean" \/ r = "sum").
Proof.
  repeat split; try reflexivity.
  - intros i. simpl. unfold mx.Qmean. rewrite length_to_list. reflexivity.
  - intros r N1 N2 N3. apply reduce_invalid. unfold valid_reduction. tauto.
  - apply reduce_ok_iff.
  - apply reduce_ok_iff.
Qed.

Lemma reduce_modes_witness :
  _reduce (Examples.vec [1; 2]%Q) "average" = Raise reduction_error.
Proof.
  destruct (reduce_modes (Examples.vec [1; 2]%Q)) as (_ & _ & _ & H & _).
  apply H; discriminate.
Defined.

(** ** Shape checks of the elementwise losses *)

(** C7: when the shapes of predictions and targets differ, [l1_loss],
    [mse_loss] and [smooth_l1_loss] each raise the shape assertion, whatever
    the values, [beta] and the reduction: no output is produced and no
    broadcasting takes place. *)
Theorem shape_mismatch_raises (predictions targets : array Q) (beta : Q)
    (reduction : string) :
  shape predictions <> shape targets ->
  l1_loss predictions targets reduction
    = Raise (AssertionError (shape_mismatch_msg predictions targets))
  /\ mse_loss predictions targets reduction
    = Raise (AssertionError (shape_mismatch_msg predictions targets))
  /\ smooth_l1_loss predictions targets beta reduction
    = Raise (AssertionError (shape_mismatch_msg predictions targets)).
Proof.
  intros N. unfold l1_loss, mse_loss, smooth_l1_loss.
  rewrite (shape_eqb_neq _ _ N). repeat split; reflexivity.
Qed.

(** A pair of shapes that broadcasting would accept is rejected all the
    same. *)
Lemma shape_mismatch_raises_witness :
  shape (Examples.mat 2 2 [1; 2; 3; 4]%Q) <> shape (Examples.vec [1; 2]%Q)
  /\ mx.broadcast_shapes [2; 2] [2] = Some [2; 2]
  /\ l1_loss (Examples.mat 2 2 [1; 2; 3; 4]%Q) (Examples.vec [1; 2]%Q) "none"
     = Raise (AssertionError
                "Shape of predictions (2, 2) and targets (2,) must match").
Proof.
  split; [discriminate|]. split; [reflexivity|].
  apply (shape_mismatch_raises (Examples.mat 2 2 [1; 2; 3; 4]%Q)
           (Examples.vec [1; 2]%Q) 1 "none").
  discriminate.
Defined.

(** ** The callable wrapper *)

(** C9: calling a [BCELoss] object built with reduction [r] on
    [(inputs, targets)] is [binary_cross_entropy inputs targets r]; the
    object is determined by its stored reduction mode. *)
Theorem BCELoss_call_spec `{ScalarMath} (r : string) (inputs targets : array Q) :
  BCELoss_call (BCELoss r) inputs targets = binary_cross_entropy inputs targets r
  /\ forall self : loss_module, self = BCELoss (reduction self).
Proof.
  split; [reflexivity|]. intros [r']; reflexivity.
Qed.

(** ** Smooth L1 *)

(** C1: on predictions [-3], targets [0] and [beta = 1] the difference is
    [-3]; the signed test [diff < beta] holds, so the code returns the
    quadratic value [9/2], where the documented formula, which tests
    [|diff| < beta], gives the linear value [5/2]. *)
Theorem smooth_l1_signed_branch :
  exists loss,
    smooth_l1_loss (Examples.vec [-3 # 1]%Q) (Examples.vec [0]%Q) 1 "none" = Ok loss
    /\ shape loss = [1]
    /\ (get loss [0%nat] == 9 # 2)%Q
    /\ (smooth_l1_documented (-3 - 0) 1 == 5 # 2)%Q
    /\ ~ (get loss [0%nat] == smooth_l1_documented (-3 - 0) 1)%Q.
Proof.
  eexists. split; [reflexivity|]. split; [reflexivity|].
  repeat split; vm_compute; congruence.
Qed.

(** ** Broadcasting *)

Lemma broadcast_rev_refl (s : shape_t) : mx.broadcast_rev s s = Some s.
Proof.
  induction s as [|d s IH]; simpl; [reflexivity|].
  rewrite IH, Nat.eqb_refl. reflexivity.
Qed.

Lemma broadcast_shapes_refl (s : shape_t) : mx.broadcast_shapes s s = Some s.
Proof.
  unfold mx.broadcast_shapes. rewrite broadcast_rev_refl. simpl.
  rewrite rev_involutive. reflexivity.
Qed.

Lemma broadcast_rev_head (x y : nat) (a b s : shape_t) :
  mx.broadcast_rev (x :: a) (y :: b) = Some s ->
  exists z s', s = z :: s' /\ mx.broadcast_rev a b = Some s'
               /\ (x = z \/ x = 1) /\ (y = z \/ y = 1)
               /\ (z = x \/ z = y).
Proof.
  simpl. destruct (mx.broadcast_rev a b) as [s'|]; [|discriminate].
  destruct (Nat.eqb_spec x y) as [->|Nxy].
  - intros E; injection E as <-. exists y, s'. tauto.
  - destruct (Nat.eqb_spec x 1) as [->|Nx].
    + intros E; injection E as <-. exists y, s'. tauto.
    + destruct (Nat.eqb_spec y 1) as [->|Ny]; [|discriminate].
      intros E; injection E as <-. exists x, s'. tauto.
Qed.

Lemma broadcast_rev_absorb (a b s : shape_t) :
  mx.broadcast_rev a b = Some s ->
  mx.broadcast_rev a s = Some s /\ mx.broadcast_rev b s = Some s.
Proof.
  revert b s; induction a as [|x a IH]; intros b s E.
  - simpl in E. injection E as <-. split; [reflexivity | apply broadcast_rev_refl].
  - destruct b as [|y b].
    + simpl in E. injection E as <-. split; [apply broadcast_rev_refl | reflexivity].
    + apply broadcast_rev_head in E.
      destruct E as (z & s' & -> & E & Hx & Hy & _).
      destruct (IH _ _ E) as [Ea Eb]. simpl. rewrite Ea, Eb.
      split.
      * destruct (Nat.eqb_spec x z) as [->|]; [reflexivity|].
        destruct (Nat.eqb_spec x 1); [reflexivity | lia].
      * destruct (Nat.eqb_spec y z) as [->|]; [reflexivity|].
        destruct (Nat.eqb_spec y 1); [reflexivity | lia].
Qed.

Lemma project_rev_idem (s : shape_t) (i : list nat) :
  mx.project_rev s (mx.project_rev s i) = mx.project_rev s i.
Proof.
  revert i; induction s as [|d s IH]; intros i; simpl; [reflexivity|].
  destruct i as [|j i]; simpl; rewrite IH; destruct (d =? 1); reflexivity.
Qed.

Lemma project_rev_absorb (a b s : shape_t) (i : list nat) :
  mx.broadcast_rev a b = Some s ->
  mx.project_rev a (mx.project_rev s i) = mx.project_rev a i
  /\ mx.project_rev b (mx.project_rev s i) = mx.project_rev b i.
Proof.
  revert b s i; induction a as [|x a IH]; intros b s i E.
  - simpl in E. injection E as <-. split; [reflexivity | apply project_rev_idem].
  - destruct b as [|y b].
    + simpl in E. injection E as <-.
      split; [apply project_rev_idem | reflexivity].
    + apply broadcast_rev_head in E.
      destruct E as (z & s' & -> & E & Hx & Hy & Hz).
      assert (Hxz : x <> 1 -> z <> 1) by lia.
      assert (Hyz : y <> 1 -> z <> 1) by lia.
      destruct i as [|j i]; simpl.
      * destruct (IH _ _ [] E) as [-> ->].
        destruct (x =? 1), (y =? 1); split; reflexivity.
      * destruct (IH _ _ i E) as [-> ->].
        destruct (Nat.eqb_spec x 1), (Nat.eqb_spec y 1), (Nat.eqb_spec z 1);
          try tauto; split; reflexivity.
Qed.

Lemma broadcast_shapes_inv (sa sb s : shape_t) :
  mx.broadcast_shapes sa sb = Some s ->
  mx.broadcast_rev (rev sa) (rev sb) = Some (rev s).
Proof.
  unfold mx.broadcast_shapes.
  destruct (mx.broadcast_rev (rev sa) (rev sb)) as [s'|]; [|discriminate].
  simpl. intros E; injection E as <-. rewrite rev_involutive. reflexivity.
Qed.

Lemma broadcast_shapes_absorb (sa sb s : shape_t) :
  mx.broadcast_shapes sa sb = Some s ->
  mx.broadcast_shapes sa s = Some s /\ mx.broadcast_shapes sb s = Some s.
Proof.
  intros E. apply broadcast_shapes_inv in E.
  destruct (broadcast_rev_absorb _ _ _ E) as [Ea Eb].
  unfold mx.broadcast_shapes. rewrite Ea, Eb. simpl.
  rewrite rev_involutive. split; reflexivity.
Qed.

Lemma broadcast_index_absorb (sa sb s : shape_t) (i : list nat) :
  mx.broadcast_shapes sa sb = Some s ->
  mx.broadcast_index sa (mx.broadcast_index s i) = mx.broadcast_index sa i
  /\ mx.broadcast_index sb (mx.broadcast_index s i) = mx.broadcast_index sb i.
Proof.
  intros E. apply broadcast_shapes_inv in E.
  unfold mx.broadcast_index. rewrite !rev_involutive.
  destruct (project_rev_absorb _ _ _ (rev i) E) as [Ea Eb].
  rewrite Ea, Eb. split; reflexivity.
Qed.

Lemma broadcast_index_idem (s : shape_t) (i : list nat) :
  mx.broadcast_index s (mx.broadcast_index s i) = mx.broadcast_index s i.
Proof.
  unfold mx.broadcast_index. rewrite rev_involutive, project_rev_idem.
  reflexivity.
Qed.

Lemma zip_with_ok {A B C} (f : A -> B -> C) (a : array A) (b : array B)
    (s : shape_t) :
  mx.broadcast_shapes (shape a) (shape b) = Some s ->
  mx.zip_with f a b
  = Ok (mx.mk_array s (fun i => f (get a (mx.broadcast_index (shape a) i))
                                  (get b (mx.broadcast_index (shape b) i)))).
Proof. unfold mx.zip_with. intros ->. reflexivity. Qed.

Lemma Qsum_map_zero {A} (f : A -> Q) (l : list A) :
  (forall j, f j == 0)%Q -> (mx.Qsum (List.map f l) == 0)%Q.
Proof.
  intros Hf. induction l as [|j l IH]; simpl; [reflexivity|].
  rewrite IH, Hf. reflexivity.
Qed.

(** ** Binary cross entropy *)

Section BinaryCrossEntropy.

Context `{ScalarMath}.

Lemma binary_cross_entropy_elementwise_ok (inputs targets : array Q)
    (s : shape_t) :
  mx.broadcast_shapes (shape targets) (shape inputs) = Some s ->
  exists loss,
    binary_cross_entropy_elementwise inputs targets = Ok loss
    /\ shape loss = s
    /\ forall i,
         let x := get inputs (mx.broadcast_index (shape inputs) i) in
         let t := get targets (mx.broadcast_index (shape targets) i) in
         get loss i = (- t * slog x - (1 - t) * slog (1 - x))%Q.
Proof.
  intros Hb. unfold binary_cross_entropy_elementwise, mx.multiply, mx.subtract.
  rewrite (zip_with_ok Qmult (mx.negative targets) (mx.log inputs) s Hb).
  rewrite (zip_with_ok Qmult (mx.rsub_scalar 1 targets)
             (mx.log (mx.rsub_scalar 1 inputs)) s Hb).
  simpl.
  match goal with
  | |- context [mx.zip_with ?f ?a ?b] =>
      rewrite (zip_with_ok f a b s (broadcast_shapes_refl s))
  end.
  eexists. split; [reflexivity|]. split; [reflexivity|].
  intros i. simpl.
  destruct (broadcast_index_absorb _ _ _ i Hb) as [-> ->]. reflexivity.
Qed.

(** C8: for broadcastable inputs and targets, [binary_cross_entropy] with
    reduction "none" returns the array of the broadcast shape whose element
    at each index is [-t * log x - (1 - t) * log (1 - x)], for the input
    element [x] and the target element [t] read at that index; the
    logarithms are applied to [x] and [1 - x] themselves, whatever the
    logarithm kernel is. *)
Theorem binary_cross_entropy_formula (inputs targets : array Q) (s : shape_t) :
  mx.broadcast_shapes (shape targets) (shape inputs) = Some s ->
  exists loss,
    binary_cross_entropy inputs targets "none" = Ok loss
    /\ shape loss = s
    /\ forall i,
         let x := get inputs (mx.broadcast_index (shape inputs) i) in
         let t := get targets (mx.broadcast_index (shape targets) i) in
         get loss i = (- t * slog x - (1 - t) * slog (1 - x))%Q.
Proof.
  intros Hb.
  destruct (binary_cross_entropy_elementwise_ok inputs targets s Hb)
    as (loss & E & Hs & Hv).
  exists loss. unfold binary_cross_entropy. rewrite E. simpl. auto.
Qed.

(** C10: [binary_cross_entropy] checks nothing about its arrays: for
    broadcastable shapes and arbitrary element values it returns an array
    for each of the reductions "none", "mean" and "sum", and when it raises,
    the reduction is none of these and the exception is the one of
    [_reduce]. *)
Theorem binary_cross_entropy_no_validation (inputs targets : array Q)
    (s : shape_t) (r : string) :
  mx.broadcast_shapes (shape targets) (shape inputs) = Some s ->
  (valid_reduction r -> is_ok (binary_cross_entropy inputs targets r))
  /\ (raises (binary_cross_entropy inputs targets r) ->
      ~ valid_reduction r
      /\ binary_cross_entropy inputs targets r = Raise reduction_error).
Proof.
  intros Hb.
  destruct (binary_cross_entropy_elementwise_ok inputs targets s Hb)
    as (loss & E & _ & _).
  unfold binary_cross_entropy. rewrite E. simpl. split.
  - apply reduce_valid.
  - intros Hr. assert (N : ~ valid_reduction r).
    { intros V. apply (reduce_valid loss) in V.
      destruct (_reduce loss r); [destruct Hr | destruct V]. }
    split; [exact N | apply reduce_invalid; exact N].
Qed.

End BinaryCrossEntropy.

(** ** Kullback-Leibler divergence *)

Section KLDivergence.

Context `{ScalarMath}.

(** C6: for broadcastable inputs and targets and an axis of the broadcast
    shape, [kl_div_loss] with reduction "none" returns the array with that
    axis removed whose element at each position is the sum, over the axis,
    of [exp t * (t - x)] for the target element [t] and the input element
    [x]; when inputs and targets are the same array, every element is
    zero. *)
Theorem kl_div_loss_formula (inputs targets : array Q) (axis : Z)
    (s : shape_t) (k : nat) :
  mx.broadcast_shapes (shape targets) (shape inputs) = Some s ->
  mx.normalize_axis axis (List.length s) = Some k ->
  exists loss,
    kl_div_loss inputs targets axis "none" = Ok loss
    /\ shape loss = remove_nth k s
    /\ (forall i,
          get loss i
          = mx.Qsum (List.map (fun j =>
              let p := insert_nth k j i in
              let t := get targets (mx.broadcast_index (shape targets) p) in
              let x := get inputs (mx.broadcast_index (shape inputs) p) in
              (sexp t * (t - x))%Q) (seq 0 (nth k s 0))))
    /\ (inputs = targets -> forall i, (get loss i == 0)%Q).
Proof.
  intros Hb Hk. unfold kl_div_loss, mx.subtract, mx.multiply.
  rewrite (zip_with_ok Qminus targets inputs s Hb). simpl.
  destruct (broadcast_shapes_absorb _ _ _ Hb) as [Hbs _].
  match goal with
  | |- context [mx.zip_with ?f ?a ?b] => rewrite (zip_with_ok f a b s Hbs)
  end.
  simpl.
  unfold mx.sum_axis, mx.reduce_axis, mx.ndim. simpl. rewrite Hk. simpl.
  eexists. split; [reflexivity|]. split; [reflexivity|].
  assert (Hv : forall i,
    mx.Qsum (List.map (fun j =>
      (sexp (get targets (mx.broadcast_index (shape targets) (insert_nth k j i)))
       * (get targets (mx.broadcast_index (shape targets)
                         (mx.broadcast_index s (insert_nth k j i)))
          - get inputs (mx.broadcast_index (shape inputs)
                          (mx.broadcast_index s (insert_nth k j i)))))%Q)
      (seq 0 (nth k s 0)))
    = mx.Qsum (List.map (fun j =>
        let p := insert_nth k j i in
        let t := get targets (mx.broadcast_index (shape targets) p) in
        let x := get inputs (mx.broadcast_index (shape inputs) p) in
        (sexp t * (t - x))%Q) (seq 0 (nth k s 0)))).
  { intros i. f_equal. apply map_ext. intros j. simpl.
    destruct (broadcast_index_absorb _ _ _ (insert_nth k j i) Hb) as [-> ->].
    reflexivity. }
  split.
  - intros i. simpl. apply Hv.
  - intros -> i. simpl. rewrite Hv. apply Qsum_map_zero. intros j. simpl. ring.
Qed.

End KLDivergence.

Lemma binary_cross_entropy_formula_witness :
  mx.broadcast_shapes (shape (Examples.vec [0; 1]%Q))
                      (shape (Examples.mat 2 2 [1 # 2; 1 # 4; 3 # 4; 1 # 3]%Q))
  = Some [2; 2]
  /\ exists loss,
       @binary_cross_entropy Examples.affine_math
         (Examples.mat 2 2 [1 # 2; 1 # 4; 3 # 4; 1 # 3]%Q)
         (Examples.vec [0; 1]%Q) "none" = Ok loss
       /\ shape loss = [2; 2]
       /\ forall i,
            let x := get (Examples.mat 2 2 [1 # 2; 1 # 4; 3 # 4; 1 # 3]%Q)
                         (mx.broadcast_index [2; 2] i) in
            let t := get (Examples.vec [0; 1]%Q) (mx.broadcast_index [2] i) in
            get loss i = (- t * (x - 1) - (1 - t) * (1 - x - 1))%Q.
Proof.
  split; [reflexivity|].
  apply (@binary_cross_entropy_formula Examples.affine_math
           (Examples.mat 2 2 [1 # 2; 1 # 4; 3 # 4; 1 # 3]%Q)
           (Examples.vec [0; 1]%Q) [2; 2]).
  reflexivity.
Defined.

(** Inputs outside (0, 1) are accepted like any others. *)
Lemma binary_cross_entropy_no_validation_witness :
  is_ok (@binary_cross_entropy Examples.affine_math
           (Examples.vec [-2 # 1; 5]%Q) (Examples.vec [0; 1]%Q) "mean").
Proof.
  apply (@binary_cross_entropy_no_validation Examples.affine_math
           (Examples.vec [-2 # 1; 5]%Q) (Examples.vec [0; 1]%Q) [2] "mean").
  - reflexivity.
  - right; left; reflexivity.
Defined.

Lemma kl_div_loss_formula_witness :
  exists loss,
    @kl_div_loss Examples.affine_math
      (Examples.mat 2 2 [1; 2; 3; 4]%Q) (Examples.mat 2 2 [1; 2; 3; 4]%Q)
      (-1) "none" = Ok loss
    /\ shape loss = [2]
    /\ forall i, (get loss i == 0)%Q.
Proof.
  destruct (@kl_div_loss_formula Examples.affine_math
              (Examples.mat 2 2 [1; 2; 3; 4]%Q) (Examples.mat 2 2 [1; 2; 3; 4]%Q)
              (-1) [2; 2] 1 eq_refl eq_refl) as (loss & E & Hs & _ & Hz).
  exists loss. split; [exact E|]. split; [exact Hs|]. apply Hz. reflexivity.
Defined.

(** ** Cross entropy *)

Lemma array_equiv_refl (a : array Q) : array_equiv a a.
Proof. split; [reflexivity | intros i; reflexivity]. Qed.

Lemma result_equiv_refl (r : result (array Q)) : result_equiv r r.
Proof. destruct r; simpl; [apply array_equiv_refl | reflexivity]. Qed.

Lemma Qltb_true (x y : Q) : mx.Qltb x y = true <-> (x < y)%Q.
Proof.
  unfold mx.Qltb. rewrite negb_true_iff, <- not_true_iff_false, Qle_bool_iff.
  split; [apply Qnot_le_lt | apply Qlt_not_le].
Qed.

Lemma Qltb_false (x y : Q) : mx.Qltb x y = false <-> (y <= x)%Q.
Proof.
  unfold mx.Qltb. rewrite negb_false_iff, Qle_bool_iff. reflexivity.
Qed.

Lemma smoothing_check (eps : Q) :
  Qle_bool 0 eps && mx.Qltb eps 1 = true <-> (0 <= eps < 1)%Q.
Proof. rewrite andb_true_iff, Qle_bool_iff, Qltb_true. reflexivity. Qed.

Lemma raises_bind {A B} (m : result A) (k : A -> result B) :
  (forall a, raises (k a)) -> raises (bind m k).
Proof. intros Hk. destruct m; simpl; [apply Hk | exact I]. Qed.

Section CrossEntropy.

Context `{ScalarMath}.

Lemma cross_entropy_checks_pass (logits : array Q) (targets : array Z)
    (weights : option (array Q)) (axis : Z) (eps : Q) (r : string) (n : nat) :
  (0 <= eps < 1)%Q ->
  mx.shape0 logits = Ok n -> mx.shape0 targets = Ok n ->
  cross_entropy logits targets weights axis eps r
  = (loss <- cross_entropy_elementwise logits targets axis eps ;;
     loss <- apply_weights loss targets weights ;;
     _reduce loss r).
Proof.
  intros He Hl Ht. unfold cross_entropy.
  apply smoothing_check in He. rewrite He, Hl, Ht. simpl.
  rewrite Nat.eqb_refl. reflexivity.
Qed.

Lemma cross_entropy_rejects_raises (logits : array Q) (targets : array Z)
    (weights : option (array Q)) (axis : Z) (eps : Q) (r : string) :
  cross_entropy_rejects logits targets weights eps r ->
  raises (cross_entropy logits targets weights axis eps r).
Proof.
  unfold cross_entropy.
  intros [Heps | [Hshape | [(w & -> & Hw) | Hr]]].
  - assert (E : Qle_bool 0 eps && mx.Qltb eps 1 = false).
    { apply not_true_iff_false. rewrite smoothing_check. exact Heps. }
    rewrite E. exact I.
  - apply raises_bind. intros _.
    unfold mx.shape0. revert Hshape.
    destruct (shape logits) as [|d1 s1]; [intros _; exact I|].
    destruct (shape targets) as [|d2 s2]; [intros _; exact I|]. simpl.
    destruct (Nat.eqb_spec d1 d2) as [->|N]; [|intros _; exact I].
    intros Hshape. exfalso. apply Hshape. reflexivity.
  - do 5 (apply raises_bind; intros ?). simpl.
    rewrite (shape_eqb_neq _ _ Hw). exact I.
  - do 6 (apply raises_bind; intros ?).
    rewrite (reduce_invalid _ _ Hr). exact I.
Qed.

End CrossEntropy.

(** The call below raises, from the gather of the host library, although
    [label_smoothing] is in range, the leading extents agree, no weights are
    given and the reduction is valid: the four conditions are not the only
    way for [cross_entropy] to fail. *)
Lemma cross_entropy_raises_without_rejection :
  @cross_entropy Examples.affine_math Data.logits Data.labels None 5 0 "none"
  = Raise mx.axis_error
  /\ ~ cross_entropy_rejects Data.logits Data.labels None 0 "none".
Proof.
  split; [reflexivity|].
  intros [H1 | [H2 | [(w & Hw & _) | H4]]].
  - apply H1. unfold Qle, Qlt; simpl; lia.
  - apply H2. reflexivity.
  - discriminate Hw.
  - apply H4. left. reflexivity.
Qed.

(** ** The class axis *)

(** C5: with the classes along axis 0 of a 2 x 2 array and one class index
    per column, [nll_loss] and [cross_entropy] with [axis = 0] and reduction
    "none" raise instead of returning an array of shape (2,): the index axis
    is added and squeezed at the last position, whatever [axis] is.  With a
    single column the call returns, with the shape (2,) of the targets and
    not the shape (1,) of the inputs without axis 0. *)
Theorem class_axis_not_last :
  nll_loss Data.class_first Data.column_labels 0 "none"
  = Raise (ValueError "Cannot squeeze axis with size not equal to 1.")
  /\ @cross_entropy Examples.affine_math Data.class_first Data.column_labels
       None 0 0 "none"
     = Raise (ValueError "Cannot squeeze axis with size not equal to 1.")
  /\ remove_nth 0 (shape Data.class_first) = [2]
  /\ (exists loss,
        nll_loss Data.class_first_single Data.column_labels 0 "none" = Ok loss
        /\ shape loss = [2]
        /\ remove_nth 0 (shape Data.class_first_single) = [1]).
Proof.
  split; [reflexivity|]. split; [reflexivity|]. split; [reflexivity|].
  eexists. repeat split.
Qed.

(** *** The last axis as class axis *)

Lemma normalize_axis_last (n : nat) : mx.normalize_axis (-1) (S n) = Some n.
Proof.
  unfold mx.normalize_axis.
  destruct (Z.leb_spec (- Z.of_nat (S n)) (-1)); [|lia].
  destruct (Z.ltb_spec (-1) (Z.of_nat (S n))); [|lia].
  simpl andb. cbv iota. f_equal.
  replace (-1 <? 0)%Z with true by reflexivity. lia.
Qed.

Lemma length_snoc (l : list nat) (x : nat) : List.length (l ++ [x]) = S (List.length l).
Proof. rewrite length_app. simpl. lia. Qed.

Lemma firstn_snoc (l : list nat) (x : nat) : firstn (List.length l) (l ++ [x]) = l.
Proof.
  rewrite firstn_app, Nat.sub_diag, firstn_all. simpl. apply app_nil_r.
Qed.

Lemma skipn_snoc (l : list nat) (x : nat) : skipn (S (List.length l)) (l ++ [x]) = [].
Proof. apply skipn_all2. rewrite length_snoc. lia. Qed.

Lemma set_nth_snoc (l : list nat) (x v : nat) :
  set_nth (List.length l) v (l ++ [x]) = l ++ [v].
Proof. unfold set_nth. rewrite firstn_snoc, skipn_snoc. reflexivity. Qed.

Lemma remove_nth_snoc (l : list nat) (x : nat) :
  remove_nth (List.length l) (l ++ [x]) = l.
Proof. unfold remove_nth. rewrite firstn_snoc, skipn_snoc. apply app_nil_r. Qed.

Lemma nth_snoc (l : list nat) (x d : nat) : nth (List.length l) (l ++ [x]) d = x.
Proof. rewrite app_nth2, Nat.sub_diag; [reflexivity | lia]. Qed.

Lemma gather_last_axis {A} (a : array A) (targets : array Z) (batch : shape_t)
    (c : nat) (axis : Z) :
  shape a = batch ++ [c] -> shape targets = batch ->
  mx.normalize_axis axis (S (List.length batch)) = Some (List.length batch) ->
  exists score,
    (g <- mx.take_along_axis a (mx.expand_last targets) axis ;;
     mx.squeeze g (-1)) = Ok score
    /\ shape score = batch.
Proof.
  intros Ha Ht Hk. unfold mx.take_along_axis, mx.ndim. simpl.
  rewrite Ha, Ht, !length_snoc, Hk, Nat.eqb_refl. simpl.
  rewrite set_nth_snoc, broadcast_shapes_refl. simpl.
  unfold mx.squeeze, mx.ndim. simpl.
  rewrite length_snoc, normalize_axis_last, nth_snoc. simpl.
  eexists. split; [reflexivity|]. simpl. apply remove_nth_snoc.
Qed.

Lemma reduce_axis_last {A B} (f : list A -> B) (a : array A) (batch : shape_t)
    (c : nat) (axis : Z) :
  shape a = batch ++ [c] ->
  mx.normalize_axis axis (S (List.length batch)) = Some (List.length batch) ->
  exists out, mx.reduce_axis f a axis = Ok out /\ shape out = batch.
Proof.
  intros Ha Hk. unfold mx.reduce_axis, mx.ndim.
  rewrite Ha, length_snoc, Hk.
  eexists. split; [reflexivity|]. simpl. apply remove_nth_snoc.
Qed.

Lemma zip_with_same_shape {A B C} (f : A -> B -> C) (a : array A) (b : array B)
    (s : shape_t) :
  shape a = s -> shape b = s ->
  exists out, mx.zip_with f a b = Ok out /\ shape out = s.
Proof.
  intros Ha Hb. unfold mx.zip_with. rewrite Ha, Hb, broadcast_shapes_refl.
  eexists. split; reflexivity.
Qed.

(** With the classes along the last axis and one class index per batch
    position, [nll_loss] with reduction "none" returns an array of the batch
    shape: the shape of the inputs without the class axis. *)
Lemma nll_loss_last_axis_shape (inputs : array Q) (targets : array Z)
    (batch : shape_t) (c : nat) (axis : Z) :
  shape inputs = batch ++ [c] -> shape targets = batch ->
  mx.normalize_axis axis (S (List.length batch)) = Some (List.length batch) ->
  exists loss,
    nll_loss inputs targets axis "none" = Ok loss
    /\ shape loss = remove_nth (List.length batch) (shape inputs).
Proof.
  intros Ha Ht Hk.
  destruct (gather_last_axis inputs targets batch c axis Ha Ht Hk)
    as (score & E & Hs).
  unfold nll_loss.
  destruct (mx.take_along_axis inputs (mx.expand_last targets) axis) as [g|e];
    simpl in E |- *; [|discriminate].
  rewrite E. simpl. eexists. split; [reflexivity|].
  simpl. rewrite Ha, remove_nth_snoc. exact Hs.
Qed.

Section CrossEntropyShape.

Context `{ScalarMath}.

(** The same for [cross_entropy], whose assertion on axis 0 needs a batch
    of at least one axis. *)
Lemma cross_entropy_last_axis_shape (logits : array Q) (targets : array Z)
    (b : nat) (batch : shape_t) (c : nat) (axis : Z) (eps : Q) :
  shape logits = (b :: batch) ++ [c] -> shape targets = b :: batch ->
  mx.normalize_axis axis (S (List.length (b :: batch)))
  = Some (List.length (b :: batch)) ->
  (0 <= eps < 1)%Q ->
  exists loss,
    cross_entropy logits targets None axis eps "none" = Ok loss
    /\ shape loss = remove_nth (List.length (b :: batch)) (shape logits).
Proof.
  intros Ha Ht Hk He.
  assert (Hl0 : mx.shape0 logits = Ok b) by (unfold mx.shape0; rewrite Ha; reflexivity).
  assert (Ht0 : mx.shape0 targets = Ok b) by (unfold mx.shape0; rewrite Ht; reflexivity).
  rewrite (cross_entropy_checks_pass logits targets None axis eps "none" b He Hl0 Ht0).
  rewrite Ha, remove_nth_snoc.
  destruct (gather_last_axis logits targets (b :: batch) c axis Ha Ht Hk)
    as (score & E & Hs).
  unfold cross_entropy_elementwise.
  destruct (mx.take_along_axis logits (mx.expand_last targets) axis) as [g|e];
    simpl in E |- *; [|discriminate].
  rewrite E. simpl.
  destruct (reduce_axis_last (fun l => slog (mx.Qsum (List.map sexp l)))
              logits (b :: batch) c axis Ha Hk) as (lse & El & Hls).
  unfold mx.logsumexp. rewrite El. simpl.
  destruct (mx.Qltb 0 eps).
  - destruct (reduce_axis_last mx.Qmean logits (b :: batch) c axis Ha Hk)
      as (mean & Em & Hms).
    unfold mx.mean_axis. rewrite Em. simpl.
    destruct (zip_with_same_shape Qminus lse
                (mx.rmul_scalar (1 - eps) score) (b :: batch) Hls Hs)
      as (t & Et & Hts).
    unfold mx.subtract. rewrite Et. simpl.
    destruct (zip_with_same_shape Qplus t
                (mx.mul_scalar (mx.negative mean) eps) (b :: batch) Hts Hms)
      as (out & Eo & Hos).
    unfold mx.add. rewrite Eo. simpl. eexists. split; [reflexivity | exact Hos].
  - destruct (zip_with_same_shape Qminus lse score (b :: batch) Hls Hs)
      as (out & Eo & Hos).
    unfold mx.subtract. rewrite Eo. simpl. eexists. split; [reflexivity | exact Hos].
Qed.

End CrossEntropyShape.

(** *** The signed test of Smooth L1 in general *)

Lemma smooth_l1_elementwise_value (predictions targets : array Q) (beta : Q)
    (s : shape_t) :
  shape predictions = s -> shape targets = s ->
  exists loss,
    smooth_l1_elementwise predictions targets beta = Ok loss
    /\ shape loss = s
    /\ forall i,
         get loss i
         = smooth_l1_selected (get predictions (mx.broadcast_index s i)
                               - get targets (mx.broadcast_index s i)) beta.
Proof.
  intros Hp Ht. unfold smooth_l1_elementwise, mx.subtract, mx.where_.
  rewrite (zip_with_ok Qminus predictions targets s)
    by (rewrite Hp, Ht; apply broadcast_shapes_refl).
  simpl.
  match goal with
  | |- context [mx.zip_with pair ?a ?b] =>
      rewrite (zip_with_ok pair a b s (broadcast_shapes_refl s))
  end.
  simpl.
  match goal with
  | |- context [mx.zip_with ?f ?a ?b] =>
      rewrite (zip_with_ok f a b s (broadcast_shapes_refl s))
  end.
  eexists. split; [reflexivity|]. split; [reflexivity|].
  intros i. simpl. rewrite Hp, Ht, !broadcast_index_idem. reflexivity.
Qed.

(** The signed test agrees with the documented one from [-beta] upwards. *)
Lemma smooth_l1_selected_agrees (diff beta : Q) :
  (0 < beta)%Q -> (- beta <= diff)%Q ->
  (smooth_l1_selected diff beta == smooth_l1_documented diff beta)%Q.
Proof.
  intros Hb Hd. unfold smooth_l1_selected, smooth_l1_documented.
  destruct (mx.Qltb diff beta) eqn:E1; destruct (mx.Qltb (Qabs diff) beta) eqn:E2;
    try reflexivity.
  - apply Qltb_true in E1. apply Qltb_false in E2.
    assert (Hneg : (diff == - beta)%Q).
    { apply Qle_antisym; [|exact Hd].
      revert E2. apply Qabs_case; intros Hs E2.
      - exfalso. apply (Qlt_irrefl diff).
        apply Qlt_le_trans with beta; assumption.
      - rewrite <- (Qopp_involutive diff). apply Qopp_le_compat. exact E2. }
    rewrite Hneg, Qabs_opp, (Qabs_pos beta) by (apply Qlt_le_weak; exact Hb).
    field. intros Hz. rewrite Hz in Hb. apply (Qlt_irrefl 0). exact Hb.
  - apply Qltb_false in E1. apply Qltb_true in E2. exfalso.
    apply (Qlt_irrefl beta).
    apply Qle_lt_trans with diff; [exact E1|].
    apply Qle_lt_trans with (Qabs diff); [apply Qle_Qabs | exact E2].
Qed.

(** Below [-beta] it selects the quadratic value, which differs from the
    documented linear one. *)
Lemma smooth_l1_selected_differs (diff beta : Q) :
  (0 < beta)%Q -> (diff < - beta)%Q ->
  ~ (smooth_l1_selected diff beta == smooth_l1_documented diff beta)%Q.
Proof.
  intros Hb Hd. unfold smooth_l1_selected, smooth_l1_documented.
  assert (Hneg : (diff < 0)%Q).
  { apply Qlt_trans with (- beta)%Q; [exact Hd|].
    rewrite <- (Qopp_involutive 0). apply Qopp_lt_compat. exact Hb. }
  assert (E1 : mx.Qltb diff beta = true).
  { apply Qltb_true. apply Qlt_trans with 0%Q; assumption. }
  assert (Habs : (Qabs diff == - diff)%Q).
  { apply Qabs_neg. apply Qlt_le_weak. exact Hneg. }
  assert (E2 : mx.Qltb (Qabs diff) beta = false).
  { apply Qltb_false. rewrite Habs. apply Qlt_le_weak.
    rewrite <- (Qopp_involutive beta). apply Qopp_lt_compat. exact Hd. }
  rewrite E1, E2, Habs. intros Heq.
  assert (Hnz : ~ (beta == 0)%Q).
  { intros Hz. rewrite Hz in Hb. apply (Qlt_irrefl 0). exact Hb. }
  assert (Hsq : ((diff + beta) * (diff + beta) == 0)%Q).
  { transitivity (2 * beta * ((1 # 2) * (diff * diff) / beta
                              - (- diff - (1 # 2) * beta)))%Q.
    - field. exact Hnz.
    - rewrite Heq. ring. }
  apply Qmult_integral in Hsq.
  assert (Hsum : (diff + beta == 0)%Q) by tauto.
  apply (Qlt_irrefl (- beta)).
  apply Qle_lt_trans with diff; [|exact Hd].
  rewrite <- (Qplus_0_l (- beta)), <- Hsum. ring_simplify. apply Qle_refl.
Qed.

(** *** Shapes of the elementwise losses *)

Lemma l1_loss_none_shape (predictions targets : array Q) :
  shape predictions = shape targets ->
  exists loss,
    l1_loss predictions targets "none" = Ok loss
    /\ shape loss = shape predictions.
Proof.
  intros Hs. unfold l1_loss.
  rewrite (proj2 (shape_eqb_eq _ _) Hs). simpl.
  destruct (zip_with_same_shape Qminus predictions targets (shape predictions)
              eq_refl (eq_sym Hs)) as (d & E & Hd).
  unfold mx.subtract. rewrite E. simpl.
  eexists. split; [reflexivity | exact Hd].
Qed.

Lemma mse_loss_none_shape (predictions targets : array Q) :
  shape predictions = shape targets ->
  exists loss,
    mse_loss predictions targets "none" = Ok loss
    /\ shape loss = shape predictions.
Proof.
  intros Hs. unfold mse_loss.
  rewrite (proj2 (shape_eqb_eq _ _) Hs). simpl.
  destruct (zip_with_same_shape Qminus predictions targets (shape predictions)
              eq_refl (eq_sym Hs)) as (d & E & Hd).
  unfold mx.subtract. rewrite E. simpl.
  eexists. split; [reflexivity | exact Hd].
Qed.

Lemma smooth_l1_loss_none_shape (predictions targets : array Q) (beta : Q) :
  shape predictions = shape targets ->
  exists loss,
    smooth_l1_loss predictions targets beta "none" = Ok loss
    /\ shape loss = shape predictions.
Proof.
  intros Hs. unfold smooth_l1_loss.
  rewrite (proj2 (shape_eqb_eq _ _) Hs). simpl.
  destruct (smooth_l1_elementwise_value predictions targets beta
              (shape predictions) eq_refl (eq_sym Hs)) as (loss & E & Hl & _).
  rewrite E. simpl. exists loss. split; [reflexivity | exact Hl].
Qed.

Lemma broadcast_rev_comm (a b : shape_t) :
  mx.broadcast_rev a b = mx.broadcast_rev b a.
Proof.
  revert b; induction a as [|x a IH]; intros [|y b]; simpl; try reflexivity.
  rewrite (IH b). destruct (mx.broadcast_rev b a) as [s|]; [|reflexivity].
  destruct (Nat.eqb_spec x y) as [->|N].
  - rewrite Nat.eqb_refl. reflexivity.
  - destruct (Nat.eqb_spec y x) as [->|_]; [contradiction|].
    destruct (Nat.eqb_spec x 1) as [->|Nx], (Nat.eqb_spec y 1) as [->|Ny];
      reflexivity.
Qed.

Lemma broadcast_shapes_comm (a b : shape_t) :
  mx.broadcast_shapes a b = mx.broadcast_shapes b a.
Proof. unfold mx.broadcast_shapes. rewrite broadcast_rev_comm. reflexivity. Qed.

(** ** Sample values

    The values the specification lists for [l1_loss], and the continuity of
    the two branches of Smooth L1 at the threshold. *)

Example l1_loss_sample_none :
  exists loss,
    l1_loss (Examples.vec [1; 2; 3]%Q) (Examples.vec [1; 1; 1]%Q) "none" = Ok loss
    /\ shape loss = [3]
    /\ List.map Qred (mx.to_list loss) = [0; 1; 2]%Q.
Proof. eexists. repeat split. Qed.

Example l1_loss_sample_mean :
  exists loss,
    l1_loss (Examples.vec [1; 2; 3]%Q) (Examples.vec [1; 1; 1]%Q) "mean" = Ok loss
    /\ shape loss = []
    /\ List.map Qred (mx.to_list loss) = [1]%Q.
Proof. eexists. repeat split. Qed.

(** At [diff = beta] the linear branch is selected, and its value is the
    one the quadratic branch has there. *)
Lemma smooth_l1_branches_meet (beta : Q) :
  (0 < beta)%Q ->
  (smooth_l1_selected beta beta == (1 # 2) * (beta * beta) / beta)%Q.
Proof.
  intros Hb. unfold smooth_l1_selected.
  assert (E : mx.Qltb beta beta = false) by (apply Qltb_false; apply Qle_refl).
  rewrite E, (Qabs_pos beta) by (apply Qlt_le_weak; exact Hb).
  field. intros Hz. rewrite Hz in Hb. apply (Qlt_irrefl 0). exact Hb.
Qed.

(** * Further properties of the losses *)

(** ** Valid indices and reductions *)

Lemma project_rev_in_range (s : shape_t) (i : list nat) :
  Forall2 lt i s -> mx.project_rev s i = i.
Proof.
  intros Hr. induction Hr as [|x d i s Hx Hr IH]; simpl; [reflexivity|].
  rewrite IH. destruct (Nat.eqb_spec d 1) as [->|_]; [|reflexivity].
  f_equal. lia.
Qed.

Lemma Forall2_lt_rev (i s : list nat) : Forall2 lt i s -> Forall2 lt (rev i) (rev s).
Proof.
  intros Hr. induction Hr as [|x d i s Hx Hr IH]; simpl; [constructor|].
  apply Forall2_app; [exact IH | constructor; [exact Hx | constructor]].
Qed.

Lemma broadcast_index_in_range (s : shape_t) (i : list nat) :
  in_range s i -> mx.broadcast_index s i = i.
Proof.
  intros Hr. unfold mx.broadcast_index.
  rewrite project_rev_in_range by (apply Forall2_lt_rev; exact Hr).
  apply rev_involutive.
Qed.

Lemma broadcast_index_snoc (s : shape_t) (d : nat) (i : list nat) (x : nat) :
  mx.broadcast_index (s ++ [d]) (i ++ [x])
  = mx.broadcast_index s i ++ [if d =? 1 then 0 else x].
Proof.
  unfold mx.broadcast_index. rewrite !rev_app_distr. simpl. reflexivity.
Qed.

Lemma in_range_length (s : shape_t) (i : list nat) :
  in_range s i -> List.length i = List.length s.
Proof. apply Forall2_length. Qed.

Lemma in_range_snoc (s : shape_t) (d : nat) (i : list nat) (x : nat) :
  in_range s i -> x < d -> in_range (s ++ [d]) (i ++ [x]).
Proof.
  intros Hr Hx. apply Forall2_app; [exact Hr | constructor; [exact Hx | constructor]].
Qed.

Lemma indices_in_range (s : shape_t) (i : list nat) :
  In i (indices s) -> in_range s i.
Proof.
  revert i; induction s as [|d s IH]; intros i; simpl.
  - intros [<-|[]]. constructor.
  - rewrite in_flat_map. intros (x & Hx & Hi).
    apply in_map_iff in Hi. destruct Hi as (i' & <- & Hi').
    apply in_seq in Hx. constructor; [lia | apply IH; exact Hi'].
Qed.

Lemma insert_nth_end (i : list nat) (v : nat) :
  insert_nth (List.length i) v i = i ++ [v].
Proof. unfold insert_nth. rewrite firstn_all, skipn_all. reflexivity. Qed.

Lemma Qsum_map_equiv {A} (f g : A -> Q) (l : list A) :
  (forall x, In x l -> (f x == g x)%Q) ->
  (mx.Qsum (List.map f l) == mx.Qsum (List.map g l))%Q.
Proof.
  induction l as [|x l IH]; intros Hfg; simpl; [reflexivity|].
  rewrite (Hfg x) by (left; reflexivity).
  rewrite IH by (intros y Hy; apply Hfg; right; exact Hy).
  reflexivity.
Qed.

Lemma Qmean_map_equiv {A} (f g : A -> Q) (l : list A) :
  (forall x, In x l -> (f x == g x)%Q) ->
  (mx.Qmean (List.map f l) == mx.Qmean (List.map g l))%Q.
Proof.
  intros Hfg. unfold mx.Qmean. rewrite !length_map.
  rewrite (Qsum_map_equiv f g l Hfg). reflexivity.
Qed.

Lemma reduce_sim (a b : array Q) (r : string) :
  array_sim a b -> result_sim (_reduce a r) (_reduce b r).
Proof.
  intros [Hs Hv]. unfold _reduce.
  assert (Hi : forall i, In i (indices (shape a)) -> (get a i == get b i)%Q).
  { intros i Hi. apply Hv, indices_in_range, Hi. }
  destruct (r =? "mean")%string; [|destruct (r =? "sum")%string;
    [|destruct (r =? "none")%string]]; simpl.
  - split; [reflexivity|]. intros i _. simpl. unfold mx.to_list.
    rewrite <- Hs. apply Qmean_map_equiv, Hi.
  - split; [reflexivity|]. intros i _. simpl. unfold mx.to_list.
    rewrite <- Hs. apply Qsum_map_equiv, Hi.
  - split; assumption.
  - reflexivity.
Qed.

Lemma reduce_scalar_shape (loss out : array Q) (r : string) :
  r = "mean" \/ r = "sum" -> _reduce loss r = Ok out -> shape out = [].
Proof.
  intros [-> | ->]; simpl; intros E; injection E as <-; reflexivity.
Qed.

(** ** The elementwise losses on arrays of one shape *)

Lemma subtract_same_shape (p t : array Q) (s : shape_t) :
  shape p = s -> shape t = s ->
  mx.subtract p t
  = Ok (mx.mk_array s (fun i => (get p (mx.broadcast_index s i)
                                 - get t (mx.broadcast_index s i))%Q)).
Proof.
  intros Hp Ht. unfold mx.subtract.
  rewrite (zip_with_ok Qminus p t s)
    by (rewrite Hp, Ht; apply broadcast_shapes_refl).
  rewrite Hp, Ht. reflexivity.
Qed.

Lemma shape_check_passes (p t : array Q) :
  shape p = shape t ->
  assert_ (shape_eqb (shape p) (shape t)) (shape_mismatch_msg p t) = Ok tt.
Proof. intros Hs. rewrite (proj2 (shape_eqb_eq _ _) Hs). reflexivity. Qed.

Lemma get_map {A B} (f : A -> B) (a : array A) (i : list nat) :
  get (mx.map f a) i = f (get a i).
Proof. reflexivity. Qed.

Lemma get_mk {A} (s : shape_t) (g : list nat -> A) (i : list nat) :
  get (mx.mk_array s g) i = g i.
Proof. reflexivity. Qed.

Lemma reduce_none (loss : array Q) : _reduce loss "none" = Ok loss.
Proof. reflexivity. Qed.

Lemma Qsquare_nonneg (d : Q) : (0 <= d * d)%Q.
Proof. destruct d as [n m]. unfold Qle, Qmult. simpl. nia. Qed.

(** X1: for predictions and targets of one shape, [l1_loss] with reduction
    "none" returns an array of that shape whose element at each valid index
    is the absolute difference of the two elements there; no element is
    negative. *)
Theorem l1_loss_none_values (predictions targets : array Q) :
  shape predictions = shape targets ->
  exists loss,
    l1_loss predictions targets "none" = Ok loss
    /\ shape loss = shape predictions
    /\ forall i, in_range (shape predictions) i ->
         get loss i = Qabs (get predictions i - get targets i)
         /\ (0 <= get loss i)%Q.
Proof.
  intros Hs. unfold l1_loss.
  rewrite (shape_check_passes _ _ Hs). cbn [bind].
  rewrite (subtract_same_shape predictions targets (shape predictions)
             eq_refl (eq_sym Hs)).
  cbn [bind]. rewrite reduce_none.
  eexists. split; [reflexivity|]. split; [reflexivity|].
  intros i Hi. unfold mx.abs. rewrite get_map, get_mk.
  rewrite (broadcast_index_in_range _ _ Hi).
  split; [reflexivity | apply Qabs_nonneg].
Qed.

Lemma l1_loss_none_values_witness :
  exists loss,
    l1_loss (Examples.vec [1; 5; 3]%Q) (Examples.vec [4; 1; 3]%Q) "none" = Ok loss
    /\ shape loss = [3]
    /\ List.map Qred (mx.to_list loss) = [3; 4; 0]%Q.
Proof.
  destruct (l1_loss_none_values (Examples.vec [1; 5; 3]%Q)
              (Examples.vec [4; 1; 3]%Q) eq_refl) as (loss & E & Hs & _).
  exists loss. split; [exact E|]. split; [exact Hs|].
  injection E as <-. reflexivity.
Defined.

(** X2: for predictions and targets of one shape, [mse_loss] with reduction
    "none" returns an array of that shape whose element at each valid index
    is the square of the difference of the two elements there: the square
    of the [l1_loss] element, and never negative. *)
Theorem mse_loss_none_values (predictions targets : array Q) :
  shape predictions = shape targets ->
  exists loss,
    mse_loss predictions targets "none" = Ok loss
    /\ shape loss = shape predictions
    /\ forall i, in_range (shape predictions) i ->
         let d := (get predictions i - get targets i)%Q in
         get loss i = (d * d)%Q
         /\ (get loss i == Qabs d * Qabs d)%Q
         /\ (0 <= get loss i)%Q.
Proof.
  intros Hs. unfold mse_loss.
  rewrite (shape_check_passes _ _ Hs). cbn [bind].
  rewrite (subtract_same_shape predictions targets (shape predictions)
             eq_refl (eq_sym Hs)).
  cbn [bind]. rewrite reduce_none.
  eexists. split; [reflexivity|]. split; [reflexivity|].
  intros i Hi. cbv zeta. unfold mx.square. rewrite get_map, get_mk.
  rewrite (broadcast_index_in_range _ _ Hi).
  split; [reflexivity|]. split; [|apply Qsquare_nonneg].
  symmetry. etransitivity; [symmetry; apply Qabs_Qmult|].
  apply Qabs_pos, Qsquare_nonneg.
Qed.

Lemma mse_loss_none_values_witness :
  exists loss,
    mse_loss (Examples.vec [1; 5; 3]%Q) (Examples.vec [4; 1; 3]%Q) "none" = Ok loss
    /\ shape loss = [3]
    /\ List.map Qred (mx.to_list loss) = [9; 16; 0]%Q.
Proof.
  destruct (mse_loss_none_values (Examples.vec [1; 5; 3]%Q)
              (Examples.vec [4; 1; 3]%Q) eq_refl) as (loss & E & Hs & _).
  exists loss. split; [exact E|]. split; [exact Hs|].
  injection E as <-. reflexivity.
Defined.

(** X3: for arrays of one shape, [l1_loss] and [mse_loss] do not depend on
    which array is the prediction and which the target: with the two
    swapped they return the same array, or raise the same exception, for
    every reduction string. *)
Theorem l1_mse_symmetric (a b : array Q) (r : string) :
  shape a = shape b ->
  result_sim (l1_loss a b r) (l1_loss b a r)
  /\ result_sim (mse_loss a b r) (mse_loss b a r).
Proof.
  intros Hs. unfold l1_loss, mse_loss.
  rewrite (shape_check_passes _ _ Hs), (shape_check_passes _ _ (eq_sym Hs)).
  cbn [bind].
  rewrite (subtract_same_shape a b (shape a) eq_refl (eq_sym Hs)).
  rewrite (subtract_same_shape b a (shape a) (eq_sym Hs) eq_refl).
  cbn [bind].
  split; apply reduce_sim; (split; [reflexivity|]); intros i _;
    unfold mx.abs, mx.square; rewrite !get_map, !get_mk.
  - rewrite Qabs_Qminus. reflexivity.
  - ring.
Qed.

Lemma l1_mse_symmetric_witness :
  result_sim (l1_loss (Examples.vec [1; 5]%Q) (Examples.vec [4; 1]%Q) "mean")
             (l1_loss (Examples.vec [4; 1]%Q) (Examples.vec [1; 5]%Q) "mean")
  /\ result_sim (mse_loss (Examples.vec [1; 5]%Q) (Examples.vec [4; 1]%Q) "mean")
                (mse_loss (Examples.vec [4; 1]%Q) (Examples.vec [1; 5]%Q) "mean").
Proof.
  apply (l1_mse_symmetric (Examples.vec [1; 5]%Q) (Examples.vec [4; 1]%Q) "mean").
  reflexivity.
Defined.

Lemma reduce_zero (a : array Q) (r : string) :
  (forall i, (get a i == 0)%Q) -> valid_reduction r ->
  exists out, _reduce a r = Ok out /\ forall i, (get out i == 0)%Q.
Proof.
  intros Hz [-> | [-> | ->]].
  - exists a. split; [reflexivity | exact Hz].
  - eexists. split; [reflexivity|]. intros i. unfold mx.mean_all, mx.reduce_all.
    rewrite get_mk. unfold mx.Qmean, mx.to_list, Qdiv.
    rewrite (Qsum_map_zero _ _ Hz). apply Qmult_0_l.
  - eexists. split; [reflexivity|]. intros i. unfold mx.sum_all, mx.reduce_all.
    rewrite get_mk. unfold mx.to_list. apply Qsum_map_zero, Hz.
Qed.

Lemma smooth_l1_selected_zero (x beta : Q) :
  (0 <= beta)%Q -> (smooth_l1_selected (x - x) beta == 0)%Q.
Proof.
  intros Hb. unfold smooth_l1_selected.
  assert (Hx : (x - x == 0)%Q) by ring.
  destruct (mx.Qltb (x - x) beta) eqn:E.
  - unfold Qdiv. rewrite Hx. ring.
  - apply Qltb_false in E. rewrite Hx in E |- *.
    assert (Hz : (beta == 0)%Q) by (apply Qle_antisym; assumption).
    rewrite Hz. reflexivity.
Qed.

(** X4: a perfect prediction has zero loss: when predictions and targets are
    the same array, [l1_loss] and [mse_loss], and [smooth_l1_loss] for
    [beta >= 0], return an array whose elements are all zero, for each of
    the reductions "none", "mean" and "sum"; for "mean" the array must have
    at least one element, the mean of no elements being undefined. *)
Theorem perfect_prediction_zero (a : array Q) (beta : Q) (r : string) :
  valid_reduction r -> (0 <= beta)%Q -> (r = "mean" -> mx.size a <> 0) ->
  (exists loss, l1_loss a a r = Ok loss /\ forall i, (get loss i == 0)%Q)
  /\ (exists loss, mse_loss a a r = Ok loss /\ forall i, (get loss i == 0)%Q)
  /\ (exists loss, smooth_l1_loss a a beta r = Ok loss
                   /\ forall i, (get loss i == 0)%Q).
Proof.
  intros Hr Hb _. unfold l1_loss, mse_loss, smooth_l1_loss.
  rewrite (shape_check_passes a a eq_refl). cbn [bind].
  rewrite (subtract_same_shape a a (shape a) eq_refl eq_refl). cbn [bind].
  repeat split.
  - apply reduce_zero; [|exact Hr]. intros i. unfold mx.abs.
    rewrite get_map, get_mk.
    setoid_replace (get a (mx.broadcast_index (shape a) i)
                    - get a (mx.broadcast_index (shape a) i))%Q with 0%Q by ring.
    reflexivity.
  - apply reduce_zero; [|exact Hr]. intros i. unfold mx.square.
    rewrite get_map, get_mk. ring.
  - destruct (smooth_l1_elementwise_value a a beta (shape a) eq_refl eq_refl)
      as (loss & E & _ & Hv).
    rewrite E. cbn [bind]. apply reduce_zero; [|exact Hr].
    intros i. rewrite Hv. apply smooth_l1_selected_zero, Hb.
Qed.

Lemma perfect_prediction_zero_witness :
  exists loss,
    smooth_l1_loss (Examples.vec [1; 5; 3]%Q) (Examples.vec [1; 5; 3]%Q) 2 "mean"
    = Ok loss
    /\ forall i, (get loss i == 0)%Q.
Proof.
  apply (perfect_prediction_zero (Examples.vec [1; 5; 3]%Q) 2 "mean").
  - right; left; reflexivity.
  - unfold Qle; simpl; lia.
  - intros _. discriminate.
Defined.

(** ** Smooth L1 on the side where the signed test is sound *)

Lemma smooth_l1_selected_nonneg (d beta : Q) :
  (0 < beta)%Q -> (0 <= smooth_l1_selected d beta)%Q.
Proof.
  intros Hb. unfold smooth_l1_selected.
  destruct (mx.Qltb d beta) eqn:E.
  - unfold Qdiv. apply Qmult_le_0_compat.
    + apply Qmult_le_0_compat; [unfold Qle; simpl; lia | apply Qsquare_nonneg].
    + apply Qinv_le_0_compat, Qlt_le_weak, Hb.
  - apply Qltb_false in E. pose proof (Qle_Qabs d) as Ha. lra.
Qed.

(** X5: for predictions and targets of one shape and [beta > 0],
    [smooth_l1_loss] with reduction "none" returns, at every valid index
    where predictions - targets is at least [-beta], the value of the
    documented formula: quadratic where [|diff| < beta], linear
    elsewhere. *)
Theorem smooth_l1_loss_documented_values (predictions targets : array Q)
    (beta : Q) :
  shape predictions = shape targets -> (0 < beta)%Q ->
  exists loss,
    smooth_l1_loss predictions targets beta "none" = Ok loss
    /\ shape loss = shape predictions
    /\ forall i, in_range (shape predictions) i ->
         (- beta <= get predictions i - get targets i)%Q ->
         (get loss i
          == smooth_l1_documented (get predictions i - get targets i) beta)%Q.
Proof.
  intros Hs Hb. unfold smooth_l1_loss.
  rewrite (shape_check_passes _ _ Hs). cbn [bind].
  destruct (smooth_l1_elementwise_value predictions targets beta
              (shape predictions) eq_refl (eq_sym Hs)) as (loss & E & Hl & Hv).
  rewrite E. cbn [bind]. rewrite reduce_none.
  exists loss. split; [reflexivity|]. split; [exact Hl|].
  intros i Hi Hd. rewrite Hv, (broadcast_index_in_range _ _ Hi).
  apply smooth_l1_selected_agrees; assumption.
Qed.

Lemma smooth_l1_loss_documented_values_witness :
  exists loss,
    smooth_l1_loss (Examples.vec [3; 1 # 2]%Q) (Examples.vec [0; 1]%Q) 1 "none"
    = Ok loss
    /\ (get loss [0%nat] == 5 # 2)%Q /\ (get loss [1%nat] == 1 # 8)%Q.
Proof.
  destruct (smooth_l1_loss_documented_values (Examples.vec [3; 1 # 2]%Q)
              (Examples.vec [0; 1]%Q) 1 eq_refl eq_refl)
    as (loss & E & _ & Hv).
  exists loss. split; [exact E|]. split.
  - rewrite (Hv [0]).
    + reflexivity.
    + repeat constructor.
    + unfold Qle; simpl; lia.
  - rewrite (Hv [1]).
    + reflexivity.
    + repeat constructor.
    + unfold Qle; simpl; lia.
Defined.

Lemma Qsum_map_nonneg {A} (f : A -> Q) (l : list A) :
  (forall j, (0 <= f j)%Q) -> (0 <= mx.Qsum (List.map f l))%Q.
Proof.
  intros Hf. induction l as [|j l IH]; simpl; [apply Qle_refl|].
  pose proof (Hf j). lra.
Qed.

Lemma reduce_nonneg (a : array Q) (r : string) :
  (forall i, (0 <= get a i)%Q) -> valid_reduction r ->
  exists out, _reduce a r = Ok out /\ forall i, (0 <= get out i)%Q.
Proof.
  intros Hp [-> | [-> | ->]].
  - exists a. split; [reflexivity | exact Hp].
  - eexists. split; [reflexivity|]. intros i. unfold mx.mean_all, mx.reduce_all.
    rewrite get_mk. unfold mx.Qmean, mx.to_list, Qdiv.
    apply Qmult_le_0_compat; [apply Qsum_map_nonneg, Hp|].
    apply Qinv_le_0_compat. unfold Qle. simpl. lia.
  - eexists. split; [reflexivity|]. intros i. unfold mx.sum_all, mx.reduce_all.
    rewrite get_mk. unfold mx.to_list. apply Qsum_map_nonneg, Hp.
Qed.

(** X6: for predictions and targets of one shape, no element of the result
    of [l1_loss] and [mse_loss] is negative, for each of the reductions
    "none", "mean" and "sum"; the same holds for [smooth_l1_loss] when
    [beta > 0], on either side of its signed test. *)
Theorem elementwise_losses_nonneg (predictions targets : array Q) (beta : Q)
    (r : string) :
  shape predictions = shape targets -> valid_reduction r ->
  (exists loss, l1_loss predictions targets r = Ok loss
                /\ forall i, (0 <= get loss i)%Q)
  /\ (exists loss, mse_loss predictions targets r = Ok loss
                   /\ forall i, (0 <= get loss i)%Q)
  /\ ((0 < beta)%Q ->
      exists loss, smooth_l1_loss predictions targets beta r = Ok loss
                   /\ forall i, (0 <= get loss i)%Q).
Proof.
  intros Hs Hr. unfold l1_loss, mse_loss, smooth_l1_loss.
  rewrite (shape_check_passes _ _ Hs). cbn [bind].
  rewrite (subtract_same_shape predictions targets (shape predictions)
             eq_refl (eq_sym Hs)). cbn [bind].
  split; [|split].
  - apply reduce_nonneg; [|exact Hr]. intros i. unfold mx.abs.
    rewrite get_map. apply Qabs_nonneg.
  - apply reduce_nonneg; [|exact Hr]. intros i. unfold mx.square.
    rewrite get_map. apply Qsquare_nonneg.
  - intros Hb.
    destruct (smooth_l1_elementwise_value predictions targets beta
                (shape predictions) eq_refl (eq_sym Hs)) as (loss & E & _ & Hv).
    rewrite E. cbn [bind]. apply reduce_nonneg; [|exact Hr].
    intros i. rewrite Hv. apply smooth_l1_selected_nonneg, Hb.
Qed.

Lemma elementwise_losses_nonneg_witness :
  exists loss,
    smooth_l1_loss (Examples.vec [-3 # 1; 1 # 2]%Q) (Examples.vec [0; 1]%Q) 1 "mean"
    = Ok loss
    /\ forall i, (0 <= get loss i)%Q.
Proof.
  destruct (elementwise_losses_nonneg (Examples.vec [-3 # 1; 1 # 2]%Q)
              (Examples.vec [0; 1]%Q) 1 "mean" eq_refl
              (or_intror (or_introl eq_refl))) as (_ & _ & Hsm).
  apply Hsm. reflexivity.
Defined.

(** ** Reductions at the end of every loss *)

Lemma bind_reduce_scalar {A} (m : result A) (k : A -> array Q) (r : string)
    (out : array Q) :
  r = "mean" \/ r = "sum" ->
  (x <- m ;; _reduce (k x) r) = Ok out -> shape out = [].
Proof.
  intros Hr. destruct m as [x|e]; simpl; [|discriminate].
  apply reduce_scalar_shape, Hr.
Qed.

Lemma bind_raises_tail {A} (m : result A) (k : A -> array Q) (r : string) :
  ~ valid_reduction r -> raises (x <- m ;; _reduce (k x) r).
Proof.
  intros Hr. apply raises_bind. intros x.
  rewrite (reduce_invalid _ _ Hr). exact I.
Qed.

Section Reductions.

Context `{ScalarMath}.

(** X7: with reduction "mean" or "sum", whatever any of the seven losses
    returns is a 0-dimensional array. *)
Theorem reduced_loss_is_scalar (a b : array Q) (targets : array Z)
    (weights : option (array Q)) (axis : Z) (c : Q) (r : string)
    (out : array Q) :
  r = "mean" \/ r = "sum" ->
  (l1_loss a b r = Ok out -> shape out = [])
  /\ (mse_loss a b r = Ok out -> shape out = [])
  /\ (smooth_l1_loss a b c r = Ok out -> shape out = [])
  /\ (binary_cross_entropy a b r = Ok out -> shape out = [])
  /\ (kl_div_loss a b axis r = Ok out -> shape out = [])
  /\ (nll_loss a targets axis r = Ok out -> shape out = [])
  /\ (cross_entropy a targets weights axis c r = Ok out -> shape out = []).
Proof.
  intros Hr.
  unfold l1_loss, mse_loss, smooth_l1_loss, binary_cross_entropy, kl_div_loss,
    nll_loss, cross_entropy.
  repeat split.
  - destruct (assert_ _ _); cbn [bind]; [|discriminate].
    apply (bind_reduce_scalar _ mx.abs), Hr.
  - destruct (assert_ _ _); cbn [bind]; [|discriminate].
    apply (bind_reduce_scalar _ mx.square), Hr.
  - destruct (assert_ _ _); cbn [bind]; [|discriminate].
    apply (bind_reduce_scalar _ (fun x => x)), Hr.
  - apply (bind_reduce_scalar _ (fun x => x)), Hr.
  - destruct (mx.subtract b a); cbn [bind]; [|discriminate].
    destruct (mx.multiply _ _); cbn [bind]; [|discriminate].
    apply (bind_reduce_scalar _ (fun x => x)), Hr.
  - destruct (mx.take_along_axis _ _ _); cbn [bind]; [|discriminate].
    apply (bind_reduce_scalar _ mx.negative), Hr.
  - destruct (assert_ _ _); cbn [bind]; [|discriminate].
    destruct (mx.shape0 a); cbn [bind]; [|discriminate].
    destruct (mx.shape0 targets); cbn [bind]; [|discriminate].
    destruct (assert_ _ _); cbn [bind]; [|discriminate].
    destruct (cross_entropy_elementwise _ _ _ _); cbn [bind]; [|discriminate].
    apply (bind_reduce_scalar _ (fun x => x)), Hr.
Qed.

(** X8: a reduction string other than "none", "mean" and "sum" makes
    [l1_loss], [mse_loss], [smooth_l1_loss], [binary_cross_entropy],
    [kl_div_loss] and [nll_loss] raise, whatever the arrays are; for
    predictions and targets of one shape the first three raise the
    [ValueError] of [_reduce], which is reached only after the loss has been
    computed. *)
Theorem invalid_reduction_raises (a b : array Q) (targets : array Z)
    (axis : Z) (beta : Q) (r : string) :
  ~ valid_reduction r ->
  raises (l1_loss a b r) /\ raises (mse_loss a b r)
  /\ raises (smooth_l1_loss a b beta r)
  /\ raises (binary_cross_entropy a b r)
  /\ raises (kl_div_loss a b axis r)
  /\ raises (nll_loss a targets axis r)
  /\ (shape a = shape b ->
      l1_loss a b r = Raise reduction_error
      /\ mse_loss a b r = Raise reduction_error
      /\ smooth_l1_loss a b beta r = Raise reduction_error).
Proof.
  intros Hr.
  unfold l1_loss, mse_loss, smooth_l1_loss, binary_cross_entropy, kl_div_loss,
    nll_loss.
  split; [|split; [|split; [|split; [|split; [|split]]]]].
  - apply raises_bind. intros _. apply (bind_raises_tail _ mx.abs), Hr.
  - apply raises_bind. intros _. apply (bind_raises_tail _ mx.square), Hr.
  - apply raises_bind. intros _. apply (bind_raises_tail _ (fun x => x)), Hr.
  - apply (bind_raises_tail _ (fun x => x)), Hr.
  - do 2 (apply raises_bind; intros ?). apply (bind_raises_tail _ (fun x => x)), Hr.
  - apply raises_bind; intros ?. apply (bind_raises_tail _ mx.negative), Hr.
  - intros Hs. rewrite (shape_check_passes _ _ Hs). cbn [bind].
    rewrite (subtract_same_shape a b (shape a) eq_refl (eq_sym Hs)). cbn [bind].
    destruct (smooth_l1_elementwise_value a b beta (shape a) eq_refl (eq_sym Hs))
      as (loss & E & _).
    rewrite E. cbn [bind].
    repeat split; apply reduce_invalid, Hr.
Qed.

End Reductions.

Lemma reduced_loss_is_scalar_witness :
  exists out,
    @kl_div_loss Examples.affine_math (Examples.mat 2 2 [1; 2; 3; 4]%Q)
      (Examples.mat 2 2 [1; 2; 3; 5]%Q) (-1) "sum" = Ok out
    /\ shape out = [].
Proof.
  assert (Hok : exists out,
    @kl_div_loss Examples.affine_math (Examples.mat 2 2 [1; 2; 3; 4]%Q)
      (Examples.mat 2 2 [1; 2; 3; 5]%Q) (-1) "sum" = Ok out)
    by (eexists; reflexivity).
  destruct Hok as [out E]. exists out. split; [exact E|].
  destruct (@reduced_loss_is_scalar Examples.affine_math
              (Examples.mat 2 2 [1; 2; 3; 4]%Q) (Examples.mat 2 2 [1; 2; 3; 5]%Q)
              Data.labels None (-1) 0 "sum" out (or_intror eq_refl))
    as (_ & _ & _ & _ & Hk & _).
  exact (Hk E).
Defined.

Lemma invalid_reduction_raises_witness :
  mse_loss (Examples.vec [1; 2]%Q) (Examples.vec [3; 4]%Q) "avg"
  = Raise reduction_error.
Proof.
  assert (Hr : ~ valid_reduction "avg")
    by (intros [E | [E | E]]; discriminate E).
  destruct (@invalid_reduction_raises Examples.affine_math
              (Examples.vec [1; 2]%Q) (Examples.vec [3; 4]%Q) Data.labels (-1) 1
              "avg" Hr) as (_ & _ & _ & _ & _ & _ & Hs).
  destruct (Hs eq_refl) as (_ & Hm & _). exact Hm.
Defined.

(** ** Values with the classes along the last axis *)

Lemma gather_last_axis_values {A} (a : array A) (targets : array Z)
    (batch : shape_t) (c : nat) (axis : Z) :
  shape a = batch ++ [c] -> shape targets = batch ->
  mx.normalize_axis axis (S (List.length batch)) = Some (List.length batch) ->
  exists score,
    (g <- mx.take_along_axis a (mx.expand_last targets) axis ;;
     mx.squeeze g (-1)) = Ok score
    /\ shape score = batch
    /\ forall i, in_range batch i ->
         get score i = get a (i ++ [mx.wrap_index (get targets i) c]).
Proof.
  intros Ha Ht Hk. unfold mx.take_along_axis, mx.ndim.
  cbn [mx.expand_last mx.shape].
  rewrite Ha, Ht, !length_snoc, Hk, Nat.eqb_refl. cbn [negb].
  rewrite set_nth_snoc, broadcast_shapes_refl. cbn [bind].
  unfold mx.squeeze, mx.ndim. cbn [mx.shape].
  rewrite length_snoc, normalize_axis_last, nth_snoc. cbn [Nat.eqb].
  eexists. split; [reflexivity|]. split; [apply remove_nth_snoc|].
  intros i Hi. rewrite !get_mk.
  pose proof (in_range_length _ _ Hi) as Hlen.
  rewrite <- Hlen, insert_nth_end.
  rewrite !broadcast_index_snoc, (broadcast_index_in_range _ _ Hi).
  rewrite set_nth_snoc, Hlen, nth_snoc.
  unfold mx.expand_last. rewrite get_mk, removelast_last. reflexivity.
Qed.

(** X9: with the classes along the last axis of the inputs and one class
    index for each batch position, [nll_loss] with reduction "none" returns
    an array of the batch shape whose element at each valid index is the
    negated input read at that position and at the class its index names; a
    negative class index counts from the end of the class axis. *)
Theorem nll_loss_last_axis_values (inputs : array Q) (targets : array Z)
    (batch : shape_t) (c : nat) (axis : Z) :
  shape inputs = batch ++ [c] -> shape targets = batch ->
  mx.normalize_axis axis (S (List.length batch)) = Some (List.length batch) ->
  exists loss,
    nll_loss inputs targets axis "none" = Ok loss
    /\ shape loss = batch
    /\ forall i, in_range batch i ->
         get loss i
         = (- get inputs (i ++ [mx.wrap_index (get targets i) c]))%Q.
Proof.
  intros Ha Ht Hk.
  destruct (gather_last_axis_values inputs targets batch c axis Ha Ht Hk)
    as (score & E & Hs & Hv).
  unfold nll_loss.
  destruct (mx.take_along_axis inputs (mx.expand_last targets) axis) as [g|e];
    cbn [bind] in E |- *; [|discriminate].
  rewrite E. cbn [bind]. rewrite reduce_none.
  eexists. split; [reflexivity|]. split; [exact Hs|].
  intros i Hi. unfold mx.negative. rewrite get_map, (Hv i Hi). reflexivity.
Qed.

Lemma nll_loss_last_axis_values_witness :
  exists loss,
    nll_loss Data.logits (Examples.ivec [1; -1]%Z) (-1) "none" = Ok loss
    /\ shape loss = [2]
    /\ get loss [0] = Qopp (get Data.logits [0; 1])
    /\ get loss [1] = Qopp (get Data.logits [1; 2]).
Proof.
  destruct (nll_loss_last_axis_values Data.logits (Examples.ivec [1; -1]%Z)
              [2] 3 (-1) eq_refl eq_refl eq_refl) as (loss & E & Hs & Hv).
  exists loss. split; [exact E|]. split; [exact Hs|]. split.
  - apply (Hv [0]). repeat constructor.
  - apply (Hv [1]). repeat constructor.
Defined.

Lemma reduce_axis_last_values {A B} (f : list A -> B) (a : array A)
    (batch : shape_t) (c : nat) (axis : Z) :
  shape a = batch ++ [c] ->
  mx.normalize_axis axis (S (List.length batch)) = Some (List.length batch) ->
  exists out,
    mx.reduce_axis f a axis = Ok out
    /\ shape out = batch
    /\ forall i, in_range batch i ->
         get out i = f (List.map (fun j => get a (i ++ [j])) (seq 0 c)).
Proof.
  intros Ha Hk. unfold mx.reduce_axis, mx.ndim.
  rewrite Ha, length_snoc, Hk.
  eexists. split; [reflexivity|]. split; [apply remove_nth_snoc|].
  intros i Hi. rewrite get_mk, nth_snoc. f_equal.
  apply map_ext. intros j.
  rewrite <- (in_range_length _ _ Hi), insert_nth_end. reflexivity.
Qed.

Lemma zip_with_same_shape_values {A B C} (f : A -> B -> C) (a : array A)
    (b : array B) (s : shape_t) :
  shape a = s -> shape b = s ->
  exists out,
    mx.zip_with f a b = Ok out
    /\ shape out = s
    /\ forall i, in_range s i -> get out i = f (get a i) (get b i).
Proof.
  intros Ha Hb.
  rewrite (zip_with_ok f a b s) by (rewrite Ha, Hb; apply broadcast_shapes_refl).
  eexists. split; [reflexivity|]. split; [reflexivity|].
  intros i Hi. rewrite get_mk, Ha, Hb, (broadcast_index_in_range _ _ Hi).
  reflexivity.
Qed.

Section CrossEntropyValues.

Context `{ScalarMath}.

Lemma cross_entropy_last_axis_formula (logits : array Q) (targets : array Z)
    (b : nat) (batch : shape_t) (c : nat) (axis : Z) (eps : Q) :
  shape logits = (b :: batch) ++ [c] -> shape targets = b :: batch ->
  mx.normalize_axis axis (S (List.length (b :: batch)))
  = Some (List.length (b :: batch)) ->
  (0 <= eps < 1)%Q ->
  exists loss,
    cross_entropy logits targets None axis eps "none" = Ok loss
    /\ shape loss = b :: batch
    /\ forall i, in_range (b :: batch) i ->
         let row := List.map (fun j => get logits (i ++ [j])) (seq 0 c) in
         (get loss i
          == slog (mx.Qsum (List.map sexp row))
             - (1 - eps) * get logits (i ++ [mx.wrap_index (get targets i) c])
             - eps * mx.Qmean row)%Q.
Proof.
  intros Ha Ht Hk He.
  assert (Hl0 : mx.shape0 logits = Ok b) by (unfold mx.shape0; rewrite Ha; reflexivity).
  assert (Ht0 : mx.shape0 targets = Ok b) by (unfold mx.shape0; rewrite Ht; reflexivity).
  rewrite (cross_entropy_checks_pass logits targets None axis eps "none" b He Hl0 Ht0).
  destruct (gather_last_axis_values logits targets (b :: batch) c axis Ha Ht Hk)
    as (score & E & Hs & Hsv).
  unfold cross_entropy_elementwise.
  destruct (mx.take_along_axis logits (mx.expand_last targets) axis) as [g|e];
    cbn [bind] in E |- *; [|discriminate].
  rewrite E. cbn [bind].
  destruct (reduce_axis_last_values (fun l => slog (mx.Qsum (List.map sexp l)))
              logits (b :: batch) c axis Ha Hk) as (lse & El & Hls & Hlv).
  unfold mx.logsumexp. rewrite El. cbn [bind].
  destruct (mx.Qltb 0 eps) eqn:Hpos.
  - destruct (reduce_axis_last_values mx.Qmean logits (b :: batch) c axis Ha Hk)
      as (mean & Em & Hms & Hmv).
    unfold mx.mean_axis. rewrite Em. cbn [bind].
    destruct (zip_with_same_shape_values Qminus lse
                (mx.rmul_scalar (1 - eps) score) (b :: batch) Hls Hs)
      as (t & Et & Hts & Htv).
    unfold mx.subtract. rewrite Et. cbn [bind].
    destruct (zip_with_same_shape_values Qplus t
                (mx.mul_scalar (mx.negative mean) eps) (b :: batch) Hts Hms)
      as (out & Eo & Hos & Hov).
    unfold mx.add. rewrite Eo. cbn [bind apply_weights]. rewrite reduce_none.
    exists out. split; [reflexivity|]. split; [exact Hos|].
    intros i Hi. cbv zeta. rewrite (Hov i Hi), (Htv i Hi).
    unfold mx.rmul_scalar, mx.mul_scalar, mx.negative.
    rewrite !get_map, (Hlv i Hi), (Hsv i Hi), (Hmv i Hi). ring.
  - apply Qltb_false in Hpos.
    assert (Hz : (eps == 0)%Q) by (apply Qle_antisym; [exact Hpos | apply He]).
    destruct (zip_with_same_shape_values Qminus lse score (b :: batch) Hls Hs)
      as (out & Eo & Hos & Hov).
    unfold mx.subtract. rewrite Eo. cbn [bind apply_weights]. rewrite reduce_none.
    exists out. split; [reflexivity|]. split; [exact Hos|].
    intros i Hi. cbv zeta. rewrite (Hov i Hi), (Hlv i Hi), (Hsv i Hi), Hz. ring.
Qed.

(** X10: with the classes along the last axis of the logits, one class index
    for each batch position and [label_smoothing = eps] in [0, 1),
    [cross_entropy] without weights and with reduction "none" returns an
    array of the batch shape whose element at each valid index is
    [log (sum (exp row)) - (1 - eps) * row[class] - eps * mean row], for the
    row of logits at that position and the class its index names. *)
Theorem cross_entropy_last_axis_values (logits : array Q) (targets : array Z)
    (b : nat) (batch : shape_t) (c : nat) (axis : Z) (eps : Q) :
  shape logits = (b :: batch) ++ [c] -> shape targets = b :: batch ->
  mx.normalize_axis axis (S (List.length (b :: batch)))
  = Some (List.length (b :: batch)) ->
  (0 <= eps < 1)%Q ->
  exists loss,
    cross_entropy logits targets None axis eps "none" = Ok loss
    /\ shape loss = b :: batch
    /\ forall i, in_range (b :: batch) i ->
         let row := List.map (fun j => get logits (i ++ [j])) (seq 0 c) in
         (get loss i
          == slog (mx.Qsum (List.map sexp row))
             - (1 - eps) * get logits (i ++ [mx.wrap_index (get targets i) c])
             - eps * mx.Qmean row)%Q.
Proof. apply cross_entropy_last_axis_formula. Qed.

End CrossEntropyValues.

Lemma cross_entropy_last_axis_values_witness :
  exists loss,
    @cross_entropy Examples.affine_math Data.logits Data.labels None (-1)
      (1 # 10) "none" = Ok loss
    /\ shape loss = [2]
    /\ (get loss [0%nat] == 69 # 10)%Q.
Proof.
  assert (He : (0 <= 1 # 10 < 1)%Q) by (unfold Qle, Qlt; simpl; lia).
  destruct (@cross_entropy_last_axis_values Examples.affine_math Data.logits
              Data.labels 2 [] 3 (-1) (1 # 10) eq_refl eq_refl eq_refl He)
    as (loss & E & Hs & Hv).
  exists loss. split; [exact E|]. split; [exact Hs|].
  rewrite (Hv [0]) by (repeat constructor). reflexivity.
Defined.

(** ** Cross entropy: composition, error order and weights *)

Section CrossEntropyMore.

Context `{ScalarMath}.

(** X11: without label smoothing and weights, [cross_entropy] is
    [logsumexp] plus [nll_loss]: when its assertion on axis 0 holds, it
    returns the array that adding the two gives, or raises the exception
    they raise. *)
Theorem cross_entropy_logsumexp_plus_nll (logits : array Q) (targets : array Z)
    (axis : Z) (n : nat) :
  mx.shape0 logits = Ok n -> mx.shape0 targets = Ok n ->
  result_equiv
    (cross_entropy logits targets None axis 0 "none")
    (nll <- nll_loss logits targets axis "none" ;;
     lse <- mx.logsumexp logits axis ;;
     mx.add lse nll).
Proof.
  intros Hl Ht.
  assert (He : (0 <= 0 < 1)%Q) by (unfold Qle, Qlt; simpl; lia).
  rewrite (cross_entropy_checks_pass logits targets None axis 0 "none" n He Hl Ht).
  unfold cross_entropy_elementwise, nll_loss.
  destruct (mx.take_along_axis logits (mx.expand_last targets) axis) as [g|e];
    cbn [bind]; [|reflexivity].
  destruct (mx.squeeze g (-1)) as [score|e]; cbn [bind]; [|reflexivity].
  rewrite reduce_none. cbn [bind].
  destruct (mx.logsumexp logits axis) as [lse|e]; cbn [bind]; [|reflexivity].
  replace (mx.Qltb 0 0) with false by reflexivity.
  unfold mx.subtract, mx.add, mx.zip_with. cbn [mx.negative mx.map mx.shape].
  destruct (mx.broadcast_shapes (shape lse) (shape score)); cbn [bind apply_weights];
    [|reflexivity].
  rewrite reduce_none. split; [reflexivity|].
  intros i. rewrite !get_mk. reflexivity.
Qed.

(** X12: the checks of [cross_entropy] come in a fixed order.  A
    [label_smoothing] outside [0, 1) raises its assertion whatever the other
    arguments are; after it, logits or targets without any axis raise the
    [IndexError] of [shape[0]]; after that, different extents on axis 0
    raise the assertion on the shapes. *)
Theorem cross_entropy_error_order (logits : array Q) (targets : array Z)
    (weights : option (array Q)) (axis : Z) (eps : Q) (r : string) :
  (~ (0 <= eps < 1)%Q ->
   cross_entropy logits targets weights axis eps r
   = Raise (AssertionError "label smoothing must be between 0 and 1 (exclusive)"))
  /\ ((0 <= eps < 1)%Q -> shape logits = [] \/ shape targets = [] ->
      cross_entropy logits targets weights axis eps r
      = Raise (IndexError "tuple index out of range"))
  /\ (forall a b, (0 <= eps < 1)%Q ->
        mx.shape0 logits = Ok a -> mx.shape0 targets = Ok b -> a <> b ->
        cross_entropy logits targets weights axis eps r
        = Raise (AssertionError
                   "The shape of logits and targets must match along axis 0.")).
Proof.
  unfold cross_entropy. split; [|split].
  - intros He.
    assert (E : Qle_bool 0 eps && mx.Qltb eps 1 = false).
    { apply not_true_iff_false. rewrite smoothing_check. exact He. }
    rewrite E. reflexivity.
  - intros He Hs. apply smoothing_check in He. rewrite He. cbn [assert_ bind].
    unfold mx.shape0. destruct Hs as [-> | ->]; [reflexivity|].
    destruct (shape logits); reflexivity.
  - intros a b He Hl Ht Hab. apply smoothing_check in He.
    rewrite He, Hl, Ht. cbn [assert_ bind].
    rewrite (proj2 (Nat.eqb_neq a b) Hab). reflexivity.
Qed.

Lemma cross_entropy_elementwise_last_axis (logits : array Q)
    (targets : array Z) (b : nat) (batch : shape_t) (c : nat) (axis : Z)
    (eps : Q) :
  shape logits = (b :: batch) ++ [c] -> shape targets = b :: batch ->
  mx.normalize_axis axis (S (List.length (b :: batch)))
  = Some (List.length (b :: batch)) ->
  (0 <= eps < 1)%Q ->
  exists loss,
    cross_entropy_elementwise logits targets axis eps = Ok loss
    /\ shape loss = b :: batch.
Proof.
  intros Ha Ht Hk He.
  destruct (cross_entropy_last_axis_shape logits targets b batch c axis eps
              Ha Ht Hk He) as (loss & E & Hs).
  assert (Hl0 : mx.shape0 logits = Ok b) by (unfold mx.shape0; rewrite Ha; reflexivity).
  assert (Ht0 : mx.shape0 targets = Ok b) by (unfold mx.shape0; rewrite Ht; reflexivity).
  rewrite (cross_entropy_checks_pass logits targets None axis eps "none" b
             He Hl0 Ht0) in E.
  destruct (cross_entropy_elementwise logits targets axis eps) as [l|e];
    cbn [bind apply_weights] in E; [|discriminate].
  rewrite reduce_none in E. injection E as <-.
  exists l. split; [reflexivity|].
  rewrite Hs, Ha. apply (remove_nth_snoc (b :: batch)).
Qed.

(** X13: weights that are 1 at every valid index change nothing: with the
    classes along the last axis, [cross_entropy] with such weights of the
    shape of targets returns, for every reduction string, the array it
    returns without weights, or raises the same exception. *)
Theorem cross_entropy_unit_weights (logits : array Q) (targets : array Z)
    (w : array Q) (b : nat) (batch : shape_t) (c : nat) (axis : Z) (eps : Q)
    (r : string) :
  shape logits = (b :: batch) ++ [c] -> shape targets = b :: batch ->
  mx.normalize_axis axis (S (List.length (b :: batch)))
  = Some (List.length (b :: batch)) ->
  (0 <= eps < 1)%Q ->
  shape w = b :: batch ->
  (forall i, in_range (b :: batch) i -> (get w i == 1)%Q) ->
  result_sim (cross_entropy logits targets (Some w) axis eps r)
             (cross_entropy logits targets None axis eps r).
Proof.
  intros Ha Ht Hk He Hw Hone.
  assert (Hl0 : mx.shape0 logits = Ok b) by (unfold mx.shape0; rewrite Ha; reflexivity).
  assert (Ht0 : mx.shape0 targets = Ok b) by (unfold mx.shape0; rewrite Ht; reflexivity).
  rewrite !(cross_entropy_checks_pass logits targets _ axis eps r b He Hl0 Ht0).
  destruct (cross_entropy_elementwise_last_axis logits targets b batch c axis
              eps Ha Ht Hk He) as (loss & E & Hs).
  rewrite E. cbn [bind apply_weights].
  rewrite (proj2 (shape_eqb_eq (shape w) (shape targets)))
    by (rewrite Hw, Ht; reflexivity).
  cbn [negb].
  destruct (zip_with_same_shape_values Qmult loss w (b :: batch) Hs Hw)
    as (out & Eo & Hos & Hov).
  unfold mx.multiply. rewrite Eo. cbn [bind].
  apply reduce_sim. split; [rewrite Hos, Hs; reflexivity|].
  intros i Hi. rewrite Hos in Hi. rewrite (Hov i Hi), (Hone i Hi). ring.
Qed.

End CrossEntropyMore.

Lemma cross_entropy_logsumexp_plus_nll_witness :
  is_ok (@cross_entropy Examples.affine_math Data.logits Data.labels None
           (-1) 0 "none")
  /\ result_equiv
       (@cross_entropy Examples.affine_math Data.logits Data.labels None
          (-1) 0 "none")
       (nll <- nll_loss Data.logits Data.labels (-1) "none" ;;
        lse <- @mx.logsumexp Examples.affine_math Data.logits (-1) ;;
        mx.add lse nll).
Proof.
  split; [exact I|].
  apply (@cross_entropy_logsumexp_plus_nll Examples.affine_math Data.logits
           Data.labels (-1) 2); reflexivity.
Defined.

Lemma cross_entropy_error_order_witness :
  @cross_entropy Examples.affine_math Data.logits (Examples.ivec [0; 2; 1]%Z)
    (Some (Examples.vec [1]%Q)) 7 (3 # 2) "avg"
  = Raise (AssertionError "label smoothing must be between 0 and 1 (exclusive)")
  /\ @cross_entropy Examples.affine_math Data.logits (Examples.ivec [0; 2; 1]%Z)
       (Some (Examples.vec [1]%Q)) 7 (1 # 2) "avg"
     = Raise (AssertionError
                "The shape of logits and targets must match along axis 0.").
Proof.
  destruct (@cross_entropy_error_order Examples.affine_math Data.logits
              (Examples.ivec [0; 2; 1]%Z) (Some (Examples.vec [1]%Q)) 7 (3 # 2)
              "avg") as (H1 & _).
  destruct (@cross_entropy_error_order Examples.affine_math Data.logits
              (Examples.ivec [0; 2; 1]%Z) (Some (Examples.vec [1]%Q)) 7 (1 # 2)
              "avg") as (_ & _ & H3).
  split.
  - apply H1. unfold Qle, Qlt; simpl; lia.
  - apply (H3 2 3); [unfold Qle, Qlt; simpl; lia | reflexivity | reflexivity | lia].
Defined.

Lemma cross_entropy_unit_weights_witness :
  is_ok (@cross_entropy Examples.affine_math Data.logits Data.labels
           (Some (Examples.vec [1; 1]%Q)) (-1) (1 # 10) "mean")
  /\ result_sim
       (@cross_entropy Examples.affine_math Data.logits Data.labels
          (Some (Examples.vec [1; 1]%Q)) (-1) (1 # 10) "mean")
       (@cross_entropy Examples.affine_math Data.logits Data.labels None
          (-1) (1 # 10) "mean").
Proof.
  split; [exact I|].
  apply (@cross_entropy_unit_weights Examples.affine_math Data.logits
           Data.labels (Examples.vec [1; 1]%Q) 2 [] 3 (-1) (1 # 10) "mean").
  - reflexivity.
  - reflexivity.
  - reflexivity.
  - unfold Qle, Qlt; simpl; lia.
  - reflexivity.
  - intros i Hi. inversion Hi as [|x d i' s' Hx Hr]; subst.
    inversion Hr; subst.
    assert (Hc : x = 0 \/ x = 1) by lia.
    destruct Hc as [-> | ->]; reflexivity.
Defined.

(** ** Binary cross entropy on labels *)

Section BinaryLabels.

Context `{ScalarMath}.

(** X14: at an index where the input element [x] is a probability strictly
    between 0 and 1, the element of [binary_cross_entropy] with reduction
    "none" is [- log x] where the target is the label 1 and
    [- log (1 - x)] where it is the label 0. *)
Theorem binary_cross_entropy_binary_labels (inputs targets : array Q)
    (s : shape_t) :
  mx.broadcast_shapes (shape targets) (shape inputs) = Some s ->
  exists loss,
    binary_cross_entropy inputs targets "none" = Ok loss
    /\ forall i,
         let x := get inputs (mx.broadcast_index (shape inputs) i) in
         let t := get targets (mx.broadcast_index (shape targets) i) in
         (0 < x < 1)%Q ->
         ((t == 1)%Q -> (get loss i == - slog x)%Q)
         /\ ((t == 0)%Q -> (get loss i == - slog (1 - x))%Q).
Proof.
  intros Hb.
  destruct (binary_cross_entropy_elementwise_ok inputs targets s Hb)
    as (loss & E & _ & Hv).
  exists loss. unfold binary_cross_entropy. rewrite E. cbn [bind].
  split; [apply reduce_none|].
  intros i. cbv zeta. intros _. rewrite (Hv i).
  split; intros Ht; rewrite Ht; ring.
Qed.

End BinaryLabels.

Lemma binary_cross_entropy_binary_labels_witness :
  exists loss,
    @binary_cross_entropy Examples.affine_math
      (Examples.vec [1 # 2; 1 # 4]%Q) (Examples.vec [1; 0]%Q) "none" = Ok loss
    /\ (get loss [0%nat] == 1 # 2)%Q /\ (get loss [1%nat] == 1 # 4)%Q.
Proof.
  destruct (@binary_cross_entropy_binary_labels Examples.affine_math
              (Examples.vec [1 # 2; 1 # 4]%Q) (Examples.vec [1; 0]%Q) [2]
              eq_refl) as (loss & E & Hv).
  assert (H0 : (0 < 1 # 2 < 1)%Q) by (unfold Qlt; simpl; lia).
  assert (H1 : (0 < 1 # 4 < 1)%Q) by (unfold Qlt; simpl; lia).
  exists loss. split; [exact E|]. split.
  - rewrite (proj1 (Hv [0] H0)); reflexivity.
  - rewrite (proj2 (Hv [1] H1)); reflexivity.
Defined.

(** ** A reduced loss is the reduction of the unreduced loss *)

Lemma reduce_factorises {A} (m : result A) (k : A -> array Q) (r : string) :
  (x <- m ;; _reduce (k x) r)
  = (l <- (x <- m ;; _reduce (k x) "none") ;; _reduce l r).
Proof. destruct m; reflexivity. Qed.

Section Factorisation.

Context `{ScalarMath}.

(** X16: for every reduction string, each of the seven losses returns what
    [_reduce] makes of its own result for reduction "none": the mean is the
    mean of the elementwise loss, the sum its sum, and a failure of the
    elementwise computation is the failure of the reduced call. *)
Theorem loss_is_reduced_elementwise_loss (a b : array Q) (targets : array Z)
    (weights : option (array Q)) (axis : Z) (c : Q) (r : string) :
  l1_loss a b r = (l <- l1_loss a b "none" ;; _reduce l r)
  /\ mse_loss a b r = (l <- mse_loss a b "none" ;; _reduce l r)
  /\ smooth_l1_loss a b c r = (l <- smooth_l1_loss a b c "none" ;; _reduce l r)
  /\ binary_cross_entropy a b r
     = (l <- binary_cross_entropy a b "none" ;; _reduce l r)
  /\ kl_div_loss a b axis r = (l <- kl_div_loss a b axis "none" ;; _reduce l r)
  /\ nll_loss a targets axis r
     = (l <- nll_loss a targets axis "none" ;; _reduce l r)
  /\ cross_entropy a targets weights axis c r
     = (l <- cross_entropy a targets weights axis c "none" ;; _reduce l r).
Proof.
  unfold l1_loss, mse_loss, smooth_l1_loss, binary_cross_entropy, kl_div_loss,
    nll_loss, cross_entropy.
  repeat split.
  - destruct (assert_ _ _); cbn [bind]; [|reflexivity].
    apply (reduce_factorises _ mx.abs).
  - destruct (assert_ _ _); cbn [bind]; [|reflexivity].
    apply (reduce_factorises _ mx.square).
  - destruct (assert_ _ _); cbn [bind]; [|reflexivity].
    apply (reduce_factorises _ (fun x => x)).
  - apply (reduce_factorises _ (fun x => x)).
  - destruct (mx.subtract b a); cbn [bind]; [|reflexivity].
    destruct (mx.multiply _ _); cbn [bind]; [|reflexivity].
    apply (reduce_factorises _ (fun x => x)).
  - destruct (mx.take_along_axis _ _ _); cbn [bind]; [|reflexivity].
    apply (reduce_factorises _ mx.negative).
  - destruct (assert_ _ _); cbn [bind]; [|reflexivity].
    destruct (mx.shape0 a); cbn [bind]; [|reflexivity].
    destruct (mx.shape0 targets); cbn [bind]; [|reflexivity].
    destruct (assert_ _ _); cbn [bind]; [|reflexivity].
    destruct (cross_entropy_elementwise _ _ _ _); cbn [bind]; [|reflexivity].
    apply (reduce_factorises _ (fun x => x)).
Qed.

End Factorisation.

(** ** Label smoothing as interpolation *)

Section LabelSmoothing.

Context `{ScalarMath}.

(** X17: label smoothing interpolates between two losses: with the classes
    along the last axis and [eps] in [0, 1), each element of
    [cross_entropy] with [label_smoothing = eps] is [(1 - eps)] times the
    element without smoothing plus [eps] times
    [log (sum (exp row)) - mean row], the loss against the uniform
    distribution over the classes. *)
Theorem label_smoothing_interpolates (logits : array Q) (targets : array Z)
    (b : nat) (batch : shape_t) (c : nat) (axis : Z) (eps : Q) :
  shape logits = (b :: batch) ++ [c] -> shape targets = b :: batch ->
  mx.normalize_axis axis (S (List.length (b :: batch)))
  = Some (List.length (b :: batch)) ->
  (0 <= eps < 1)%Q ->
  exists plain smoothed,
    cross_entropy logits targets None axis 0 "none" = Ok plain
    /\ cross_entropy logits targets None axis eps "none" = Ok smoothed
    /\ forall i, in_range (b :: batch) i ->
         let row := List.map (fun j => get logits (i ++ [j])) (seq 0 c) in
         (get smoothed i
          == (1 - eps) * get plain i
             + eps * (slog (mx.Qsum (List.map sexp row)) - mx.Qmean row))%Q.
Proof.
  intros Ha Ht Hk He.
  assert (H0 : (0 <= 0 < 1)%Q) by (unfold Qle, Qlt; simpl; lia).
  destruct (cross_entropy_last_axis_formula logits targets b batch c axis 0
              Ha Ht Hk H0) as (plain & Ep & _ & Hp).
  destruct (cross_entropy_last_axis_formula logits targets b batch c axis eps
              Ha Ht Hk He) as (smoothed & Es & _ & Hsm).
  exists plain, smoothed. split; [exact Ep|]. split; [exact Es|].
  intros i Hi. cbv zeta. rewrite (Hsm i Hi), (Hp i Hi). ring.
Qed.

End LabelSmoothing.

Lemma label_smoothing_interpolates_witness :
  exists plain smoothed,
    @cross_entropy Examples.affine_math Data.logits Data.labels None (-1) 0
      "none" = Ok plain
    /\ @cross_entropy Examples.affine_math Data.logits Data.labels None (-1)
         (1 # 10) "none" = Ok smoothed
    /\ (get plain [0%nat] == 7)%Q
    /\ (get smoothed [0%nat] == (9 # 10) * 7 + (1 # 10) * (8 - 2))%Q.
Proof.
  assert (He : (0 <= 1 # 10 < 1)%Q) by (unfold Qle, Qlt; simpl; lia).
  destruct (@label_smoothing_interpolates Examples.affine_math Data.logits
              Data.labels 2 [] 3 (-1) (1 # 10) eq_refl eq_refl eq_refl He)
    as (plain & smoothed & Ep & Es & Hv).
  exists plain, smoothed. split; [exact Ep|]. split; [exact Es|].
  injection Ep as <-. split; [reflexivity|].
  rewrite (Hv [0]) by (repeat constructor). reflexivity.
Defined.

(** ** Kullback-Leibler divergence as a difference of two sums *)

Lemma Qsum_map_minus {A} (f g : A -> Q) (l : list A) :
  (mx.Qsum (List.map (fun j => f j - g j) l)
   == mx.Qsum (List.map f l) - mx.Qsum (List.map g l))%Q.
Proof.
  induction l as [|j l IH]; simpl; [reflexivity|]. rewrite IH. ring.
Qed.

Lemma multiply_same_shape (a b : array Q) (s : shape_t) :
  shape a = s -> shape b = s ->
  mx.multiply a b
  = Ok (mx.mk_array s (fun i => (get a (mx.broadcast_index s i)
                                 * get b (mx.broadcast_index s i))%Q)).
Proof.
  intros Ha Hb. unfold mx.multiply.
  rewrite (zip_with_ok Qmult a b s)
    by (rewrite Ha, Hb; apply broadcast_shapes_refl).
  rewrite Ha, Hb. reflexivity.
Qed.

Section KLDecomposition.

Context `{ScalarMath}.

(** X18: for inputs and targets of one shape, [kl_div_loss] is the
    difference of two sums over the axis: the sum of [exp t * t] minus the
    sum of [exp t * x].  Computing the two sums with the array operations
    and subtracting them gives the result of [kl_div_loss], for every
    reduction string. *)
Theorem kl_div_loss_difference_of_sums (inputs targets : array Q) (axis : Z)
    (r : string) :
  shape inputs = shape targets ->
  result_sim
    (kl_div_loss inputs targets axis r)
    (pt <- mx.multiply (mx.exp targets) targets ;;
     px <- mx.multiply (mx.exp targets) inputs ;;
     st <- mx.sum_axis pt axis ;;
     sx <- mx.sum_axis px axis ;;
     d <- mx.subtract st sx ;;
     _reduce d r).
Proof.
  intros Hs. unfold kl_div_loss.
  rewrite (subtract_same_shape targets inputs (shape targets) eq_refl Hs).
  cbn [bind].
  rewrite (multiply_same_shape (mx.exp targets) targets (shape targets)
             eq_refl eq_refl).
  rewrite (multiply_same_shape (mx.exp targets) inputs (shape targets)
             eq_refl Hs).
  match goal with
  | |- context [mx.multiply (mx.exp targets) ?d] =>
      rewrite (multiply_same_shape (mx.exp targets) d (shape targets)
                 eq_refl eq_refl)
  end.
  cbn [bind]. unfold mx.sum_axis, mx.reduce_axis, mx.ndim. cbn [mx.shape].
  destruct (mx.normalize_axis axis (List.length (shape targets))) as [k|];
    cbn [bind]; [|reflexivity].
  match goal with
  | |- context [mx.subtract ?st ?sx] =>
      rewrite (subtract_same_shape st sx (remove_nth k (shape targets))
                 eq_refl eq_refl)
  end.
  cbn [bind]. apply reduce_sim. split; [reflexivity|].
  intros i Hi. cbn [mx.shape] in Hi. rewrite !get_mk.
  rewrite (broadcast_index_in_range _ _ Hi).
  rewrite <- Qsum_map_minus. apply Qsum_map_equiv. intros j _.
  rewrite !get_mk. unfold mx.exp. rewrite !get_map.
  rewrite !broadcast_index_idem. ring.
Qed.

End KLDecomposition.

Lemma kl_div_loss_difference_of_sums_witness :
  is_ok (@kl_div_loss Examples.affine_math (Examples.mat 2 2 [1; 2; 3; 4]%Q)
           (Examples.mat 2 2 [2; 2; 3; 5]%Q) (-1) "mean")
  /\ result_sim
       (@kl_div_loss Examples.affine_math (Examples.mat 2 2 [1; 2; 3; 4]%Q)
          (Examples.mat 2 2 [2; 2; 3; 5]%Q) (-1) "mean")
       (pt <- mx.multiply (@mx.exp Examples.affine_math
                             (Examples.mat 2 2 [2; 2; 3; 5]%Q))
                          (Examples.mat 2 2 [2; 2; 3; 5]%Q) ;;
        px <- mx.multiply (@mx.exp Examples.affine_math
                             (Examples.mat 2 2 [2; 2; 3; 5]%Q))
                          (Examples.mat 2 2 [1; 2; 3; 4]%Q) ;;
        st <- mx.sum_axis pt (-1) ;;
        sx <- mx.sum_axis px (-1) ;;
        d <- mx.subtract st sx ;;
        _reduce d "mean").
Proof.
  split; [exact I|].
  apply (@kl_div_loss_difference_of_sums Examples.affine_math
           (Examples.mat 2 2 [1; 2; 3; 4]%Q) (Examples.mat 2 2 [2; 2; 3; 5]%Q)
           (-1) "mean").
  reflexivity.
Defined.

(** ** Cross entropy with the classes along the last axis *)


Section CrossEntropyLastAxis.

Context `{ScalarMath}.



Lemma valid_reduction_dec (r : string) :
  {valid_reduction r} + {~ valid_reduction r}.
Proof.
  unfold valid_reduction.
  destruct (String.eqb_spec r "none") as [->|N1]; [left; tauto|].
  destruct (String.eqb_spec r "mean") as [->|N2]; [left; tauto|].
  destruct (String.eqb_spec r "sum") as [->|N3]; [left; tauto|].
  right. tauto.
Defined.

Lemma cross_entropy_returns_last_axis (logits : array Q) (targets : array Z)
    (weights : option (array Q)) (b : nat) (batch : shape_t) (c : nat)
    (axis : Z) (eps : Q) (r : string) :
  shape logits = (b :: batch) ++ [c] -> shape targets = b :: batch ->
  mx.normalize_axis axis (S (List.length (b :: batch)))
  = Some (List.length (b :: batch)) ->
  ~ cross_entropy_rejects logits targets weights eps r ->
  exists loss weighted out,
    cross_entropy_elementwise logits targets axis eps = Ok loss
    /\ shape loss = b :: batch
    /\ apply_weights loss targets weights = Ok weighted
    /\ (forall w, weights = Some w ->
          mx.multiply loss w = Ok weighted
          /\ forall i, in_range (b :: batch) i ->
               get weighted i = (get loss i * get w i)%Q)
    /\ _reduce weighted r = Ok out
    /\ cross_entropy logits targets weights axis eps r = Ok out.
Proof.
  intros Ha Ht Hk Hn.
  assert (He : (0 <= eps < 1)%Q).
  { destruct (Qle_bool 0 eps && mx.Qltb eps 1) eqn:E.
    - apply smoothing_check, E.
    - exfalso. apply Hn. left. rewrite <- smoothing_check, E. discriminate. }
  assert (Hr : valid_reduction r).
  { destruct (valid_reduction_dec r) as [V|N]; [exact V|].
    exfalso. apply Hn. do 3 right. exact N. }
  assert (Hl0 : mx.shape0 logits = Ok b) by (unfold mx.shape0; rewrite Ha; reflexivity).
  assert (Ht0 : mx.shape0 targets = Ok b) by (unfold mx.shape0; rewrite Ht; reflexivity).
  rewrite (cross_entropy_checks_pass logits targets weights axis eps r b He Hl0 Ht0).
  destruct (cross_entropy_elementwise_last_axis logits targets b batch c axis
              eps Ha Ht Hk He) as (loss & E & Hs).
  rewrite E. cbn [bind]. exists loss.
  destruct weights as [w|].
  - assert (Hw : shape w = shape targets).
    { destruct (shape_eqb (shape w) (shape targets)) eqn:Ew.
      - apply shape_eqb_eq, Ew.
      - exfalso. apply Hn. right; right; left. exists w.
        split; [reflexivity|]. intros Heq. apply shape_eqb_eq in Heq.
        rewrite Heq in Ew. discriminate. }
    assert (Hwb : shape w = b :: batch) by (rewrite Hw; exact Ht).
    destruct (zip_with_same_shape_values Qmult loss w (b :: batch) Hs Hwb)
      as (weighted & Ew & _ & Hwv).
    cbn [apply_weights]. rewrite (proj2 (shape_eqb_eq _ _) Hw). cbn [negb].
    unfold mx.multiply. rewrite Ew. cbn [bind].
    destruct (_reduce weighted r) as [out|e] eqn:Er.
    + exists weighted, out.
      split; [reflexivity|]. split; [exact Hs|]. split; [reflexivity|].
      split; [|split; [exact Er | reflexivity]].
      intros w' Hw'. injection Hw' as <-. split; [exact Ew | exact Hwv].
    + exfalso. pose proof (reduce_valid weighted r Hr) as Hok.
      rewrite Er in Hok. exact Hok.
  - cbn [apply_weights bind].
    destruct (_reduce loss r) as [out|e] eqn:Er.
    + exists loss, out.
      split; [reflexivity|]. split; [exact Hs|]. split; [reflexivity|].
      split; [|split; [exact Er | reflexivity]].
      intros w' Hw'. discriminate Hw'.
    + exfalso. pose proof (reduce_valid loss r Hr) as Hok.
      rewrite Er in Hok. exact Hok.
Qed.

Lemma cross_entropy_rejects_dec (logits : array Q) (targets : array Z)
    (weights : option (array Q)) (eps : Q) (r : string) :
  hd_error (shape logits) = hd_error (shape targets) ->
  cross_entropy_rejects logits targets weights eps r
  \/ ~ cross_entropy_rejects logits targets weights eps r.
Proof.
  intros Hhd. unfold cross_entropy_rejects.
  destruct (Qle_bool 0 eps && mx.Qltb eps 1) eqn:E.
  - apply smoothing_check in E.
    destruct (valid_reduction_dec r) as [V|N]; [|left; tauto].
    destruct weights as [w|].
    + destruct (shape_eqb (shape w) (shape targets)) eqn:Ew.
      * apply shape_eqb_eq in Ew. right.
        intros [H1 | [H2 | [(w' & Hw' & Hne) | H4]]]; try tauto.
        injection Hw' as <-. contradiction.
      * left. right; right; left. exists w. split; [reflexivity|].
        intros Heq. apply shape_eqb_eq in Heq. rewrite Heq in Ew. discriminate.
    + right. intros [H1 | [H2 | [(w' & Hw' & _) | H4]]]; try tauto.
      discriminate Hw'.
  - left. left. rewrite <- smoothing_check, E. discriminate.
Qed.

(** C4 (as amended): [cross_entropy] raises whenever [label_smoothing] is
    outside [0, 1), or [logits.shape[0]] differs from [targets.shape[0]], or
    weights are given with a shape other than the shape of targets, or the
    reduction is none of "none", "mean" and "sum".  With the classes along
    the last axis and one class index for each batch position it raises if
    and only if one of these holds; when none holds it returns, and with
    weights the returned array is the reduction of the elementwise loss
    multiplied elementwise by the weights. *)
Theorem cross_entropy_errors (logits : array Q) (targets : array Z)
    (weights : option (array Q)) (axis : Z) (eps : Q) (r : string) :
  (cross_entropy_rejects logits targets weights eps r ->
   raises (cross_entropy logits targets weights axis eps r))
  /\ (forall b batch c,
        shape logits = (b :: batch) ++ [c] -> shape targets = b :: batch ->
        mx.normalize_axis axis (S (List.length (b :: batch)))
        = Some (List.length (b :: batch)) ->
        (raises (cross_entropy logits targets weights axis eps r)
         <-> cross_entropy_rejects logits targets weights eps r)
        /\ (~ cross_entropy_rejects logits targets weights eps r ->
            is_ok (cross_entropy logits targets weights axis eps r))
        /\ (forall w,
              weights = Some w ->
              ~ cross_entropy_rejects logits targets weights eps r ->
              exists loss weighted out,
                cross_entropy_elementwise logits targets axis eps = Ok loss
                /\ mx.multiply loss w = Ok weighted
                /\ (forall i, in_range (b :: batch) i ->
                      get weighted i = (get loss i * get w i)%Q)
                /\ _reduce weighted r = Ok out
                /\ cross_entropy logits targets weights axis eps r = Ok out)).
Proof.
  split; [apply cross_entropy_rejects_raises|].
  intros b batch c Ha Ht Hk.
  assert (Hhd : hd_error (shape logits) = hd_error (shape targets))
    by (rewrite Ha, Ht; reflexivity).
  split; [|split].
  - split; [|apply cross_entropy_rejects_raises].
    intros Hraise.
    destruct (cross_entropy_rejects_dec logits targets weights eps r Hhd)
      as [Hrej|Hn]; [exact Hrej|].
    destruct (cross_entropy_returns_last_axis logits targets weights b batch c
                axis eps r Ha Ht Hk Hn) as (_ & _ & out & _ & _ & _ & _ & _ & E).
    rewrite E in Hraise. destruct Hraise.
  - intros Hn.
    destruct (cross_entropy_returns_last_axis logits targets weights b batch c
                axis eps r Ha Ht Hk Hn) as (_ & _ & out & _ & _ & _ & _ & _ & E).
    rewrite E. exact I.
  - intros w Hw Hn.
    destruct (cross_entropy_returns_last_axis logits targets weights b batch c
                axis eps r Ha Ht Hk Hn)
      as (loss & weighted & out & El & _ & _ & Hmul & Er & E).
    destruct (Hmul w Hw) as [Em Hv].
    exists loss, weighted, out. repeat split; assumption.
Qed.

End CrossEntropyLastAxis.



Lemma cross_entropy_errors_witness :
  raises (@cross_entropy Examples.affine_math Data.logits Data.labels
            (Some (Examples.vec [2]%Q)) (-1) 0 "none")
  /\ (raises (@cross_entropy Examples.affine_math Data.logits Data.labels
                (Some (Examples.vec [2; 3]%Q)) (-1) (1 # 10) "sum")
      <-> cross_entropy_rejects Data.logits Data.labels
            (Some (Examples.vec [2; 3]%Q)) (1 # 10) "sum")
  /\ exists loss weighted out,
       @cross_entropy_elementwise Examples.affine_math Data.logits Data.labels
         (-1) (1 # 10) = Ok loss
       /\ mx.multiply loss (Examples.vec [2; 3]%Q) = Ok weighted
       /\ (forall i, in_range [2] i ->
             get weighted i = (get loss i * get (Examples.vec [2; 3]%Q) i)%Q)
       /\ _reduce weighted "sum" = Ok out
       /\ @cross_entropy Examples.affine_math Data.logits Data.labels
            (Some (Examples.vec [2; 3]%Q)) (-1) (1 # 10) "sum" = Ok out.
Proof.
  assert (Hn : ~ cross_entropy_rejects Data.logits Data.labels
                 (Some (Examples.vec [2; 3]%Q)) (1 # 10) "sum").
  { intros [H1 | [H2 | [(w & Hw & Hne) | H4]]].
    - apply H1. unfold Qle, Qlt; simpl; lia.
    - apply H2. reflexivity.
    - injection Hw as <-. apply Hne. reflexivity.
    - apply H4. right; right. reflexivity. }
  split; [|split].
  - apply (@cross_entropy_errors Examples.affine_math Data.logits Data.labels
             (Some (Examples.vec [2]%Q)) (-1) 0 "none").
    right; right; left. exists (Examples.vec [2]%Q).
    split; [reflexivity | discriminate].
  - exact (proj1 (proj2 (@cross_entropy_errors Examples.affine_math
                           Data.logits Data.labels
                           (Some (Examples.vec [2; 3]%Q)) (-1) (1 # 10) "sum")
                    2 [] 3 eq_refl eq_refl eq_refl)).
  - exact (proj2 (proj2 (proj2 (@cross_entropy_errors Examples.affine_math
                                  Data.logits Data.labels
                                  (Some (Examples.vec [2; 3]%Q)) (-1) (1 # 10)
                                  "sum")
                           2 [] 3 eq_refl eq_refl eq_refl))
             (Examples.vec [2; 3]%Q) eq_refl Hn).
Defined.

(** With the classes along axis 0 of the 2 x 2 array the loss of the
    specification is defined, of the shape of the targets, where
    [cross_entropy] raises: the index axis of the code is not the class
    axis. *)
Lemma cross_entropy_spec_class_first :
  (exists formula,
     @cross_entropy_spec Examples.affine_math Data.class_first
       Data.column_labels 0 0 = Ok formula
     /\ shape formula = [2])
  /\ raises (@cross_entropy Examples.affine_math Data.class_first
               Data.column_labels None 0 0 "none").
Proof.
  split; [eexists; split; reflexivity | exact I].
Qed.
